(** * Personal finance copilot: the analytics core, embedded and verified

    A shallow embedding of [app/services/analyzer.py],
    [app/services/actions.py] and [app/services/categorizer.py].

    Modelling conventions.
    - A Python [float] is a rational ([Q]); equalities between amounts are
      stated with [==].  [round(x, n)] is rounding to [n] decimals, half to
      even, and its result is read as the decimal figure.  Python's float
      division raises [ZeroDivisionError] on a zero divisor, so it is a
      partial operation.
    - Sums whose only use is a figure rounded to cents are exact.  Where a
      float is multiplied, divided, subtracted or compared before it is
      rounded to decimals (the impulse spikes, the category trends), the
      operations are those of binary64: the exact result rounded to the
      nearest double, ties to even ([fl]); there the amounts are read as
      the doubles nearest to the recorded amounts, and a sum that pandas
      computes is the correctly rounded sum.  Floats are finite: overflow to
      an infinity is outside the model.
    - A pandas [DataFrame] is its list of column names together with its rows.
      The columns [timestamp], [amount] and [is_income] are read without any
      guard by every function and are fields that every row has; the other
      columns are optional and governed by the list of column names.
    - Text is ASCII: [str.lower] and [str.strip] act on the ASCII letters and
      the ASCII white space.
    - A Python exception is a [Raise] result. *)

From Stdlib Require Import ZArith QArith Qround Qabs Qpower Lqa Lia.
From Stdlib Require Import Ascii String DecimalString.
From stdpp Require Import base option list sorting strings gmap sets.

(** ** Exceptions *)

Inductive error : Type :=
  | KeyError (column : string)
  | ZeroDivisionError
  | ValueError.

Inductive result (A : Type) : Type :=
  | Ok (a : A)
  | Raise (e : error).
Arguments Ok {A} a.
Arguments Raise {A} e.

Global Instance result_ret : MRet result := @Ok.
Global Instance result_bind : MBind result := λ A B f m,
  match m with Ok a => f a | Raise e => Raise e end.

(** ** Floats as exact rationals *)

Global Instance Qlt_dec : RelDecision Qlt := λ x y,
  match Qlt_le_dec x y with
  | left H => left H
  | right H => right (Qle_not_lt _ _ H)
  end.
Global Instance Qle_dec : RelDecision Qle := λ x y,
  match Qlt_le_dec y x with
  | left H => right (Qlt_not_le _ _ H)
  | right H => left H
  end.

Global Instance Qeq_decision : RelDecision Qeq := Qeq_dec.

(** [a / b] on Python floats. *)
Definition py_truediv (a b : Q) : result Q :=
  if Qeq_bool b 0 then Raise ZeroDivisionError else Ok (a / b)%Q.

(** Nearest integer, ties to the even one. *)
Definition round_half_even (x : Q) : Z :=
  let f := Qfloor x in
  match (x - inject_Z f ?= 1 # 2)%Q with
  | Lt => f
  | Gt => (f + 1)%Z
  | Eq => if Z.even f then f else (f + 1)%Z
  end.

Definition pow10 (n : nat) : Q := inject_Z (10 ^ Z.of_nat n).

(** [round(x, n)]. *)
Definition py_round (x : Q) (n : nat) : Q :=
  (inject_Z (round_half_even (x * pow10 n)) / pow10 n)%Q.

(** [Series.sum()]; the arithmetic is exact, so the order of the additions is
    immaterial. *)
Definition sumQ (l : list Q) : Q := foldr Qplus 0%Q l.

(** [Series.median()] of a non-empty series: the middle value of the sorted
    values, or the mean of the two middle ones.  (On an empty series pandas
    gives NaN; every call below is guarded by a length test.) *)
Definition median (l : list Q) : Q :=
  let s := merge_sort Qle l in
  let n := length s in
  if Nat.even n
  then ((nth (n / 2 - 1) s 0 + nth (n / 2) s 0) / 2)%Q
  else nth (n / 2) s 0%Q.

(** [Series.mean()] of a non-empty series. *)
Definition mean (l : list Q) : Q := (sumQ l / inject_Z (Z.of_nat (length l)))%Q.

(** ** Binary64 arithmetic *)

(** [2 ^ e] for an integer exponent. *)
Definition pow2 (e : Z) : Q := (2 ^ e)%Q.

(** The binade of a number other than 0: the exponent [e] with
    [2 ^ (e - 1) <= |x| < 2 ^ e]. *)
Definition binade (x : Q) : Z :=
  let k := (Z.log2 (Z.abs (Qnum x)) - Z.log2 (Zpos (Qden x)))%Z in
  if Qle_bool (pow2 k) (Qabs x) then (k + 1)%Z else k.

(** The exponent of the unit in the last place: 53 bits of precision, and
    the smallest unit [2 ^ -1074] of the subnormal numbers. *)
Definition ulp_exponent (x : Q) : Z := Z.max (binade x - 53) (-1074).

(** The double nearest to [x], ties to the even one, as a fraction in lowest
    terms. *)
Definition fl (x : Q) : Q :=
  let y := Qred x in
  let u := ulp_exponent y in
  Qred (inject_Z (round_half_even (y / pow2 u)) * pow2 u)%Q.

Global Arguments pow2 : simpl never.
Global Arguments binade : simpl never.
Global Arguments fl : simpl never.

(** A number is a float when rounding leaves it as it is. *)
Definition is_float (x : Q) : Prop := (fl x == x)%Q.

(** [a * b] and [a - b] on floats. *)
Definition fmul (a b : Q) : Q := fl (a * b).
Definition fsub (a b : Q) : Q := fl (a - b).

(** [a / b] on Python floats whose quotient is used before it is rounded to
    decimals. *)
Definition fdiv (a b : Q) : result Q :=
  if Qeq_bool b 0 then Raise ZeroDivisionError else Ok (fl (a / b)).

(** [Series.sum()] where the float result is used before it is rounded to
    decimals: the sum, correctly rounded. *)
Definition fsum (l : list Q) : Q := fl (sumQ l).

(** ** Text *)

Definition lower_ascii (c : ascii) : ascii :=
  let n := nat_of_ascii c in
  if (65 <=? n)%nat && (n <=? 90)%nat then ascii_of_nat (n + 32) else c.

(** [s.lower()] *)
Fixpoint lower (s : string) : string :=
  match s with
  | EmptyString => EmptyString
  | String c t => String (lower_ascii c) (lower t)
  end.

(** The ASCII characters for which [str.isspace] holds. *)
Definition is_space (c : ascii) : bool :=
  let n := nat_of_ascii c in
  ((9 <=? n)%nat && (n <=? 13)%nat) || ((28 <=? n)%nat && (n <=? 32)%nat).

Fixpoint lstrip (s : string) : string :=
  match s with
  | EmptyString => EmptyString
  | String c t => if is_space c then lstrip t else s
  end.

(** [s.strip()] *)
Definition strip (s : string) : string :=
  String.rev (lstrip (String.rev (lstrip s))).

Fixpoint startswith (p s : string) : bool :=
  match p, s with
  | EmptyString, _ => true
  | String a p', String b s' => if decide (a = b) then startswith p' s' else false
  | String _ _, EmptyString => false
  end.

(** [kw in text] on strings; also [Series.str.contains(kw)] for a pattern
    without regular-expression operators. *)
Fixpoint py_in (kw text : string) : bool :=
  startswith kw text ||
  match text with
  | EmptyString => false
  | String _ t => py_in kw t
  end.

(** [" ".join(parts)] *)
Fixpoint join_space (parts : list string) : string :=
  match parts with
  | [] => EmptyString
  | [p] => p
  | p :: rest => p +:+ " " +:+ join_space rest
  end.

(** [str(x)] of an optional string. *)
Definition py_str (x : option string) : string :=
  match x with Some s => s | None => "None" end.

(** Truthiness of an optional string. *)
Definition truthy (x : option string) : bool :=
  match x with Some (String _ _) => true | _ => false end.

Definition decimal (n : nat) : string := NilZero.string_of_uint (Nat.to_uint n).

Fixpoint zeros (n : nat) : string :=
  match n with O => EmptyString | S k => String "0" (zeros k) end.

(** A number printed with at least [w] digits, as by the format [0wd]. *)
Definition zfill (w n : nat) : string :=
  let d := decimal n in zeros (w - String.length d) +:+ d.

(** ** Transactions and frames *)

(** A calendar date: year, month, day. *)
Definition date : Type := nat * nat * nat.

Record Timestamp : Type := {
  ts_year : nat;
  ts_month : nat;
  ts_day : nat;
  ts_seconds : nat (* time of day *)
}.

(** [timestamp.dt.date] *)
Definition date_of (t : Timestamp) : date := (ts_year t, ts_month t, ts_day t).

(** [str(d)] for a [datetime.date]. *)
Definition str_date (d : date) : string :=
  zfill 4 d.1.1 +:+ "-" +:+ zfill 2 d.1.2 +:+ "-" +:+ zfill 2 d.2.

(** [timestamp.dt.to_period("M").astype(str)] *)
Definition month_period (t : Timestamp) : string :=
  zfill 4 (ts_year t) +:+ "-" +:+ zfill 2 (ts_month t).

Definition date_le (a b : date) : Prop :=
  (a.1.1 < b.1.1)%nat ∨
  (a.1.1 = b.1.1 ∧ ((a.1.2 < b.1.2)%nat ∨ (a.1.2 = b.1.2 ∧ (a.2 ≤ b.2)%nat))).

Global Instance date_le_dec : RelDecision date_le.
Proof. intros a b. unfold date_le. apply _. Defined.

(** One transaction.  The nullable columns are optional values; [period] is
    the column that the dashboard adds to the history, and is read only by the
    trend comparator, on frames that list it among their columns. *)
Record Row : Type := {
  timestamp : Timestamp;
  amount : Q;
  is_income : bool;
  category : option string;
  description : option string;
  source : option string;
  account_name : option string;
  period : string
}.

Record DataFrame : Type := {
  columns : list string;
  rows : list Row
}.

(** [c in df.columns] *)
Definition has_col (df : DataFrame) (c : string) : bool :=
  bool_decide (c ∈ columns df).

(** [df.get("category", pd.Series([None] * len(df)))], read at one row. *)
Definition category_or_none (df : DataFrame) (r : Row) : option string :=
  if has_col df "category" then category r else None.

Definition is_expense (r : Row) : bool := negb (is_income r).

(** [df["amount"]] is a float64 column: it holds the double nearest to the
    recorded amount. *)
Definition famount (r : Row) : Q := fl (amount r).

(** ** pandas group-by *)

Section groupby.
Context {A K : Type} `{EqDecision K} (le : relation K) `{!RelDecision le}.

(** The group keys: the distinct keys that are not missing, in sorted
    order ([groupby] has [dropna=True] and [sort=True] by default). *)
Definition group_keys (key : A → option K) (l : list A) : list K :=
  merge_sort le (remove_dups (omap key l)).

(** [df.groupby(key)[col].sum()]: one entry per group key, holding the sum
    over the rows of that key. *)
Definition groupby_sum (key : A → option K) (val : A → Q) (l : list A)
  : list (K * Q) :=
  (λ k, (k, sumQ (val <$> filter (λ r, key r = Some k) l)))
    <$> group_keys key l.

(** The same grouping where the float sums are used before they are rounded
    to decimals. *)
Definition groupby_fsum (key : A → option K) (val : A → Q) (l : list A)
  : list (K * Q) :=
  (λ k, (k, fsum (val <$> filter (λ r, key r = Some k) l)))
    <$> group_keys key l.

(** [Series.get(k, 0.0)] *)
Definition series_get (k : K) (s : list (K * Q)) : Q :=
  match list_find (λ kv, kv.1 = k) s with
  | Some (_, kv) => kv.2
  | None => 0%Q
  end.
End groupby.

(** ** analyzer.py: compute_basic_stats *)

Record Stats : Type := {
  total_income : Q;
  total_expense : Q;
  net : Q;
  savings_rate : Q
}.

(** [float(df.loc[df["is_income"], "amount"].sum())] *)
Definition income_sum (df : DataFrame) : Q :=
  sumQ (amount <$> filter (λ r, is_income r = true) (rows df)).

(** [float(df.loc[~df["is_income"], "amount"].sum())] *)
Definition expense_sum (df : DataFrame) : Q :=
  sumQ (amount <$> filter (λ r, is_expense r = true) (rows df)).

Definition compute_basic_stats (df : DataFrame) : result Stats :=
  let income := income_sum df in
  let expense := expense_sum df in
  let net := (income - expense)%Q in
  rate ← (if decide (0 < income)%Q then py_truediv net income else Ok 0%Q);
  Ok {| total_income := py_round income 2;
        total_expense := py_round expense 2;
        net := py_round net 2;
        savings_rate := py_round rate 3 |}.

(** ** analyzer.py: compute_category_breakdown *)

(** One dict of the breakdown; [entry_category] is [None] when the key
    ["category"] is missing from the dict or holds [None]. *)
Record CategoryEntry : Type := {
  entry_category : option string;
  total_spend : Q
}.

(** The order of [sort_values(ascending=False)].  The place of entries with
    equal amounts is not fixed by pandas and nothing below relies on it. *)
Definition amount_desc {K : Type} (a b : K * Q) : Prop := (b.2 <= a.2)%Q.

Global Instance amount_desc_dec {K} : RelDecision (@amount_desc K).
Proof. intros a b. unfold amount_desc. apply _. Defined.

Definition compute_category_breakdown (df : DataFrame) : list CategoryEntry :=
  if negb (has_col df "category") then []
  else
    let exp_df := filter (λ r, is_expense r = true) (rows df) in
    if bool_decide (exp_df = []) then []
    else
      let grouped :=
        merge_sort amount_desc (groupby_sum String.le category amount exp_df) in
      (λ kv, {| entry_category := Some kv.1;
                total_spend := py_round kv.2 2 |}) <$> grouped.

(** ** analyzer.py: detect_patterns *)

Record CountTotal : Type := {
  count : nat;
  total : Q
}.

Record ImpulseSpikes : Type := {
  days : list string;
  extra_spend : Q
}.

Record Patterns : Type := {
  high_fees : CountTotal;
  impulse_spikes : ImpulseSpikes;
  subscriptions : CountTotal;
  cashflow_flag : string
}.

(** [df["description"].astype(str).str.lower()], read at one row. *)
Definition description_text (r : Row) : string := lower (py_str (description r)).

(** [cat_col.astype(str).str.lower()], read at one row. *)
Definition category_text (df : DataFrame) (r : Row) : string :=
  lower (py_str (category_or_none df r)).

Definition fees_mask (r : Row) : bool :=
  (py_in "fee" (description_text r)
   || py_in "charge" (description_text r)
   || py_in "penalty" (description_text r)
   || py_in "fine" (description_text r)
   || py_in "interest" (description_text r))
  && is_expense r.

Definition subs_mask (df : DataFrame) (r : Row) : bool :=
  (bool_decide (category_text df r = "subscriptions")
   || py_in "subscription" (description_text r))
  && is_expense r.

(** [expense_df.groupby("date")["amount"].sum()] *)
Definition daily_totals (df : DataFrame) : list (date * Q) :=
  groupby_fsum date_le (λ r, Some (date_of (timestamp r))) famount
    (filter (λ r, is_expense r = true) (rows df)).

(** The impulse-spike block: the spike days and the unrounded extra spend.
    The threshold [1.5 * median_daily], the comparison with it and the
    differences [high_days - median_daily] are float operations. *)
Definition impulse_block (df : DataFrame) : list string * Q :=
  let expense_df := filter (λ r, is_expense r = true) (rows df) in
  if bool_decide (expense_df = []) then ([], 0%Q)
  else
    let daily := daily_totals df in
    let median_daily :=
      if bool_decide (0 < length daily)%nat then fl (median (daily.*2)) else 0%Q in
    if decide (0 < median_daily)%Q then
      let threshold := fmul (3 # 2) median_daily in
      let high_days := filter (λ kv, (threshold < kv.2)%Q) daily in
      (str_date <$> high_days.*1,
       fsum ((λ kv, fsub kv.2 median_daily) <$> high_days))
    else ([], 0%Q).

(** The ordered classifier of the cash-flow health. *)
Definition cashflow_of (stats : Stats) : string :=
  if decide (net stats < 0)%Q then "critical"
  else if decide (savings_rate stats < 1 # 10)%Q then "warning"
  else "ok".

Definition detect_patterns (df : DataFrame) : result Patterns :=
  if negb (has_col df "description") then Raise (KeyError "description")
  else
    let fees_total := sumQ (amount <$> filter (λ r, fees_mask r = true) (rows df)) in
    let fees_count := length (filter (λ r, fees_mask r = true) (rows df)) in
    let '(impulse_days, extra) := impulse_block df in
    let subs_total :=
      sumQ (amount <$> filter (λ r, subs_mask df r = true) (rows df)) in
    let subs_count := length (filter (λ r, subs_mask df r = true) (rows df)) in
    stats ← compute_basic_stats df;
    Ok {| high_fees := {| count := fees_count; total := py_round fees_total 2 |};
          impulse_spikes :=
            {| days := impulse_days; extra_spend := py_round extra 2 |};
          subscriptions :=
            {| count := subs_count; total := py_round subs_total 2 |};
          cashflow_flag := cashflow_of stats |}.

(** ** analyzer.py: build_behaviour_profiles *)

Definition SuperSaver : string := "Super Saver".
Definition Balanced : string := "Balanced".
Definition SubscriptionHeavy : string := "Subscription Heavy".
Definition LifestyleSpender : string := "Lifestyle Spender".

Record BehaviourProfiles : Type := {
  labels_by_period : gmap string string;
  cluster_descriptions : gmap string string
}.

Definition _default_cluster_descriptions : gmap string string :=
  <[SuperSaver := "High savings rate, controlled expenses. You prioritise surplus and future security."]>
  (<[Balanced := "Reasonable spending and decent savings. You’re mostly in control with room to optimise."]>
  (<[SubscriptionHeavy := "Noticeable chunk of spend goes into recurring services. Good candidate for pruning."]>
  (<[LifestyleSpender := "Higher shopping / lifestyle spend. You enjoy comforts, but may trim a bit without pain."]>
   ∅))).

(** One row of [monthly_df]. *)
Record MonthRow : Type := {
  mr_period : string;
  mr_savings_rate : Q;
  mr_total_expense : Q;
  mr_subs_share : Q;
  mr_shopping_share : Q
}.

Definition shop_mask (df : DataFrame) (r : Row) : bool :=
  bool_decide (category_text df r = "shopping") && is_expense r.

(** The body of the loop over [df.groupby("period")]. *)
Definition month_features (p : string) (group : DataFrame) : result MonthRow :=
  stats ← compute_basic_stats group;
  let total_expense' :=
    if decide (0 < total_expense stats)%Q
    then total_expense stats else (1 # 1000000)%Q in
  if negb (has_col group "description") then Raise (KeyError "description")
  else
    let subs_spend :=
      sumQ (amount <$> filter (λ r, subs_mask group r = true) (rows group)) in
    subs_share ← py_truediv subs_spend total_expense';
    let shop_spend :=
      sumQ (amount <$> filter (λ r, shop_mask group r = true) (rows group)) in
    shop_share ← py_truediv shop_spend total_expense';
    Ok {| mr_period := p;
          mr_savings_rate := savings_rate stats;
          mr_total_expense := total_expense stats;
          mr_subs_share := subs_share;
          mr_shopping_share := shop_share |}.

Fixpoint traverse {A B : Type} (f : A → result B) (l : list A) : result (list B) :=
  match l with
  | [] => Ok []
  | x :: t => y ← f x; ys ← traverse f t; Ok (y :: ys)
  end.

(** The months of the history, in the order of [df.groupby("period")]. *)
Definition periods_of (df : DataFrame) : list string :=
  group_keys String.le (λ r, Some (month_period (timestamp r))) (rows df).

Definition month_group (df : DataFrame) (p : string) : DataFrame :=
  {| columns := columns df;
     rows := filter (λ r, month_period (timestamp r) = p) (rows df) |}.

(** [monthly_df] *)
Definition monthly_rows (df : DataFrame) : result (list MonthRow) :=
  traverse (λ p, month_features p (month_group df p)) (periods_of df).

(** The heuristic label of a single month. *)
Definition heuristic_label (row : MonthRow) : string :=
  if decide (2 # 5 <= mr_savings_rate row)%Q then SuperSaver
  else if decide (1 # 5 < mr_subs_share row)%Q then SubscriptionHeavy
  else if decide (1 # 4 < mr_shopping_share row)%Q then LifestyleSpender
  else Balanced.

(** One entry of [cluster_info]. *)
Record ClusterInfo : Type := {
  cluster : nat;
  mean_savings : Q;
  mean_expense : Q;
  mean_subs_share : Q;
  mean_shop_share : Q
}.

(** [monthly_df.groupby("cluster")] with the four means; [mc] pairs each
    month with its cluster. *)
Definition cluster_info_of (mc : list (MonthRow * nat)) : list ClusterInfo :=
  (λ cid,
     let grp := (filter (λ x, x.2 = cid) mc).*1 in
     {| cluster := cid;
        mean_savings := mean (mr_savings_rate <$> grp);
        mean_expense := mean (mr_total_expense <$> grp);
        mean_subs_share := mean (mr_subs_share <$> grp);
        mean_shop_share := mean (mr_shopping_share <$> grp) |})
  <$> group_keys Nat.le (λ x, Some x.2) mc.

(** [max(l, key=key)]: the first element whose key is maximal. *)
Fixpoint max_from {A : Type} (key : A → Q) (best : A) (l : list A) : A :=
  match l with
  | [] => best
  | x :: t => max_from key (if decide (key best < key x)%Q then x else best) t
  end.

Definition py_max {A : Type} (key : A → Q) (l : list A) : option A :=
  match l with
  | [] => None
  | x :: t => Some (max_from key x t)
  end.

(** One step of the greedy assignment: when some cluster remains, label the
    one with the largest key among those that remain and discard it. *)
Definition assign_next (info : list ClusterInfo) (key : ClusterInfo → Q)
    (label : string) (st : gmap nat string * gset nat)
  : gmap nat string * gset nat :=
  let '(cluster_labels, remaining_ids) := st in
  if bool_decide (remaining_ids = ∅) then st
  else
    match py_max key (filter (λ c, cluster c ∈ remaining_ids) info) with
    | Some c => (<[cluster c := label]> cluster_labels, remaining_ids ∖ {[cluster c]})
    | None => st
    end.

(** The assignment of persona labels to clusters.  [max] of an empty
    [cluster_info] raises [ValueError]. *)
Definition assign_cluster_labels (info : list ClusterInfo)
  : result (gmap nat string) :=
  let remaining_ids : gset nat := list_to_set (cluster <$> info) in
  match py_max mean_savings info with
  | None => Raise ValueError
  | Some saver =>
    let st1 : gmap nat string * gset nat :=
      (<[cluster saver := SuperSaver]> ∅, remaining_ids ∖ {[cluster saver]}) in
    let st2 := assign_next info mean_subs_share SubscriptionHeavy st1 in
    let st3 := assign_next info mean_shop_share LifestyleSpender st2 in
    Ok (set_fold (λ cid labels, <[cid := Balanced]> labels) st3.1 st3.2)
  end.

Definition features (row : MonthRow) : list Q :=
  [mr_savings_rate row; mr_total_expense row; mr_subs_share row;
   mr_shopping_share row].

(** scikit-learn is outside the repository: [StandardScaler().fit_transform]
    and [KMeans(n_clusters=k, random_state=42, n_init="auto").fit_predict]
    are parameters of the model. *)
Section profiles.
Context {Scaled : Type}.
Variable fit_transform : list (list Q) → Scaled.
Variable fit_predict : nat → Scaled → list nat.

(** [monthly_df["cluster"]], paired with the months. *)
Definition clustered (n_clusters : nat) (monthly : list MonthRow)
  : list (MonthRow * nat) :=
  let X_scaled := fit_transform (features <$> monthly) in
  let k := n_clusters `min` length monthly in
  zip monthly (fit_predict k X_scaled).

(** [labels_by_period] of the clustering path. *)
Definition cluster_period_labels (cluster_labels : gmap nat string)
    (mc : list (MonthRow * nat)) : gmap string string :=
  foldl (λ labels x,
           <[mr_period x.1 := default Balanced (cluster_labels !! x.2)]> labels)
        ∅ mc.

Definition build_behaviour_profiles (df_all : DataFrame) (n_clusters : nat)
  : result BehaviourProfiles :=
  if bool_decide (rows df_all = [])
  then Ok {| labels_by_period := ∅; cluster_descriptions := ∅ |}
  else
    monthly ← monthly_rows df_all;
    if bool_decide (monthly = [])
    then Ok {| labels_by_period := ∅; cluster_descriptions := ∅ |}
    else if bool_decide (length monthly < 2)%nat then
      Ok {| labels_by_period :=
              foldl (λ labels row,
                       <[mr_period row := heuristic_label row]> labels)
                    ∅ monthly;
            cluster_descriptions := _default_cluster_descriptions |}
    else
      let mc := clustered n_clusters monthly in
      cluster_labels ← assign_cluster_labels (cluster_info_of mc);
      Ok {| labels_by_period := cluster_period_labels cluster_labels mc;
            cluster_descriptions := _default_cluster_descriptions |}.
End profiles.

(** ** analyzer.py: compute_category_trends *)

Record TrendRow : Type := {
  tr_category : string;
  tr_current : Q;
  tr_baseline : Q;
  tr_delta : Q;
  tr_delta_pct : option Q
}.

(** The order on the keys of [groupby(["period", "category"])]. *)
Definition pair_le (a b : string * string) : Prop :=
  a.1 ≠ b.1 ∧ String.le a.1 b.1 ∨ a.1 = b.1 ∧ String.le a.2 b.2.

Global Instance pair_le_dec : RelDecision pair_le.
Proof. intros a b. unfold pair_le. apply _. Defined.

(** The expense rows of the current period and of the other periods. *)
Definition cur_rows (df : DataFrame) (current_period : string) : list Row :=
  filter (λ r, period r = current_period)
    (filter (λ r, is_expense r = true) (rows df)).

Definition base_rows (df : DataFrame) (current_period : string) : list Row :=
  filter (λ r, period r ≠ current_period)
    (filter (λ r, is_expense r = true) (rows df)).

(** [base["period"].nunique()] *)
Definition base_months (base : list Row) : nat :=
  length (remove_dups (period <$> base)).

(** [base_by_period_cat.groupby("category")["amount"].sum() / base_months],
    a float division of each sum. *)
Definition baseline_by_cat (base : list Row) : list (string * Q) :=
  let base_by_period_cat :=
    groupby_fsum pair_le (λ r, c ← category r; Some (period r, c)) famount base in
  (λ kv, (kv.1, fl (kv.2 / inject_Z (Z.of_nat (base_months base)))))
    <$> groupby_fsum String.le (λ kv, Some kv.1.2) snd base_by_period_cat.

(** The key of the final sort. *)
Definition sort_key (row : TrendRow) : Q :=
  match tr_delta_pct row with
  | None => 0%Q
  | Some p => Qabs p
  end.

(** The order of [sorted(rows, key=sort_key, reverse=True)]. *)
Definition movers_first (a b : TrendRow) : Prop := (sort_key b <= sort_key a)%Q.

Global Instance movers_first_dec : RelDecision movers_first.
Proof. intros a b. unfold movers_first. apply _. Defined.

(** The body of the loop over [cats]; [current - baseline] and
    [delta / baseline] are float operations. *)
Definition trend_row (cur_by_cat baseline_by : list (string * Q)) (cat : string)
  : result TrendRow :=
  let current := series_get cat cur_by_cat in
  let baseline := series_get cat baseline_by in
  let delta := fsub current baseline in
  delta_pct ← (if decide (0 < baseline)%Q
               then p ← fdiv delta baseline; Ok (Some p)
               else Ok None);
  Ok {| tr_category := cat;
        tr_current := py_round current 2;
        tr_baseline := py_round baseline 2;
        tr_delta := py_round delta 2;
        tr_delta_pct := (λ p, py_round p 3) <$> delta_pct |}.

(** The categories are iterated in the order of a Python set, which the
    language leaves open; [elements] fixes one order, and the rows are
    sorted afterwards. *)
Definition compute_category_trends (df_all : DataFrame) (current_period : string)
  : result (list TrendRow) :=
  if negb (has_col df_all "period") then Ok []
  else
    let cur := cur_rows df_all current_period in
    let base := base_rows df_all current_period in
    if bool_decide (cur = []) || bool_decide (base = []) then Ok []
    else if negb (has_col df_all "category") then Raise (KeyError "category")
    else
      let cur_by_cat := groupby_fsum String.le category famount cur in
      if bool_decide (base_months base = 0)%nat then Ok []
      else
        let baseline := baseline_by_cat base in
        let cats : gset string :=
          list_to_set cur_by_cat.*1 ∪ list_to_set baseline.*1 in
        rows ← traverse (trend_row cur_by_cat baseline) (elements cats);
        Ok (merge_sort movers_first rows).

(** ** actions.py: recommend_actions_for_next_month *)

(** The dicts the recommender reads with [.get(key, default)]: a field is
    [None] when its key is missing. *)
Record StatsDict : Type := {
  sd_savings_rate : option Q;
  sd_net : option Q;
  sd_total_income : option Q;
  sd_total_expense : option Q
}.

Record CountTotalDict : Type := {
  d_total : option Q;
  d_count : option Z
}.

Record SpikesDict : Type := {
  d_days : option (list string);
  d_extra_spend : option Q
}.

Record PatternsDict : Type := {
  d_high_fees : option CountTotalDict;
  d_impulse_spikes : option SpikesDict;
  d_subscriptions : option CountTotalDict
}.

(** The results of the analyzer, seen as such dicts. *)
Definition stats_dict (s : Stats) : StatsDict :=
  {| sd_savings_rate := Some (savings_rate s);
     sd_net := Some (net s);
     sd_total_income := Some (total_income s);
     sd_total_expense := Some (total_expense s) |}.

Definition count_total_dict (c : CountTotal) : CountTotalDict :=
  {| d_total := Some (total c); d_count := Some (Z.of_nat (count c)) |}.

Definition patterns_dict (p : Patterns) : PatternsDict :=
  {| d_high_fees := Some (count_total_dict (high_fees p));
     d_impulse_spikes :=
       Some {| d_days := Some (days (impulse_spikes p));
               d_extra_spend := Some (extra_spend (impulse_spikes p)) |};
     d_subscriptions := Some (count_total_dict (subscriptions p)) |}.

(** Digits, least significant first, with a comma after every third one that
    has a successor. *)
Fixpoint commas_rev (ds : list ascii) : list ascii :=
  match ds with
  | a :: b :: c :: ((_ :: _) as rest) => a :: b :: c :: ","%char :: commas_rev rest
  | _ => ds
  end.

Definition with_commas (digits : string) : string :=
  string_of_list_ascii
    (reverse (commas_rev (reverse (list_ascii_of_string digits)))).

(** The format [{x:,.0f}]. *)
Definition fmt_comma0 (x : Q) : string :=
  let body := with_commas (decimal (Z.abs_nat (round_half_even x))) in
  if decide (x < 0)%Q then "-" +:+ body else body.

(** The format [{n}] of an [int]. *)
Definition fmt_int (n : Z) : string :=
  if decide (n < 0)%Z then "-" +:+ decimal (Z.abs_nat n) else decimal (Z.abs_nat n).

Definition empty_count_total : CountTotalDict := {| d_total := None; d_count := None |}.
Definition empty_spikes : SpikesDict := {| d_days := None; d_extra_spend := None |}.

(** The loop that removes duplicates and keeps first occurrences. *)
Fixpoint dedupe (seen : gset string) (actions : list string) : list string :=
  match actions with
  | [] => []
  | a :: rest =>
      if decide (a ∈ seen) then dedupe seen rest
      else a :: dedupe ({[a]} ∪ seen) rest
  end.

Definition filler_action : string :=
  "Block 30 minutes on your calendar to review this month’s spending and write down 1–2 habits you want to change. Treat it like a personal retro, not punishment.".

(** The actions of steps 1 to 5, before the filler. *)
Definition rule_actions (stats : StatsDict) (categories : list CategoryEntry)
    (patterns : PatternsDict) : list string :=
  let savings_rate := default 0%Q (sd_savings_rate stats) in
  let fees := default empty_count_total (d_high_fees patterns) in
  let subs := default empty_count_total (d_subscriptions patterns) in
  let spikes := default empty_spikes (d_impulse_spikes patterns) in
  let fees_total := default 0%Q (d_total fees) in
  let fees_count := default 0%Z (d_count fees) in
  let subs_total := default 0%Q (d_total subs) in
  let spike_days := default [] (d_days spikes) in
  let extra_spend := default 0%Q (d_extra_spend spikes) in
  [ if decide (savings_rate < 1 # 10)%Q then
      "Set up an automatic transfer of at least 10% of your income into a separate savings or investment account at the start of the month."
    else if decide (savings_rate < 1 # 4)%Q then
      "If it feels comfortable, increase your monthly savings by 5–10% of your income by slightly trimming non-essential spends."
    else
      "Your savings rate is strong. Protect it by keeping fixed essentials and recurring commitments stable." ]
  ++ (if decide (0 < fees_total)%Q then
        [ "Open your statement and identify the " +:+ fmt_int fees_count
          +:+ " fee/charge transaction(s) (~₹" +:+ fmt_comma0 fees_total
          +:+ "). Decide which ones you can avoid next month (late fees, ATM fees, convenience charges)." ]
      else [])
  ++ (match spike_days with
      | first_day :: _ =>
          if decide (0 < extra_spend)%Q then
            [ "Pick one of the high-spend days from this month (e.g., " +:+ first_day
              +:+ "). Plan in advance how you'll handle a similar day next month to avoid the extra ~₹"
              +:+ fmt_comma0 extra_spend +:+ " spend." ]
          else []
      | [] => []
      end)
  ++ (if decide (0 < subs_total)%Q then
        [ "Do a 10-minute subscription audit. Keep what you use weekly and pause or cancel the rest to reclaim part of the ~₹"
          +:+ fmt_comma0 subs_total +:+ " you spent this month." ]
      else [])
  ++ (match categories with
      | top_cat :: _ =>
          if truthy (entry_category top_cat) then
            [ "Choose one simple rule to soften " +:+ py_str (entry_category top_cat)
              +:+ " spends next month—for example, one fewer order or a fixed monthly cap." ]
          else []
      | [] => []
      end).

Definition recommend_actions_for_next_month (stats : StatsDict)
    (categories : list CategoryEntry) (patterns : PatternsDict) : list string :=
  let actions := rule_actions stats categories patterns in
  let actions :=
    if bool_decide (length actions < 3)%nat then actions ++ [filler_action]
    else actions in
  take 5 (dedupe ∅ actions).

(** ** categorizer.py *)

Definition KEYWORD_CATEGORY_MAP : list (string * string) :=
  [ ("zomato", "Food"); ("swiggy", "Food"); ("blinkit", "Food");
    ("instamart", "Food"); ("bigbasket", "Food"); ("starbucks", "Food");
    ("cafe", "Food"); ("restaurant", "Food");
    ("uber", "Transport"); ("ola", "Transport"); ("rapido", "Transport");
    ("metro", "Transport"); ("cab", "Transport"); ("fuel", "Transport");
    ("petrol", "Transport"); ("diesel", "Transport");
    ("netflix", "Subscriptions"); ("spotify", "Subscriptions");
    ("hotstar", "Subscriptions"); ("disney", "Subscriptions");
    ("prime", "Subscriptions"); ("youtube", "Subscriptions");
    ("apple music", "Subscriptions");
    ("amazon", "Shopping"); ("flipkart", "Shopping"); ("myntra", "Shopping");
    ("ajio", "Shopping"); ("h&m", "Shopping"); ("zara", "Shopping");
    ("nykaa", "Shopping");
    ("rent", "Housing"); ("landlord", "Housing"); ("maintenance", "Housing");
    ("society", "Housing");
    ("salary", "Salary"); ("salaried", "Salary"); ("stipend", "Salary");
    ("freelance", "Side Income"); ("consulting", "Side Income");
    ("bonus", "Bonus");
    ("fee", "Fees & Charges"); ("charges", "Fees & Charges");
    ("penalty", "Fees & Charges"); ("fine", "Fees & Charges");
    ("interest", "Fees & Charges") ].

(** The loop over the table: the category of the first keyword found in
    [text]. *)
Fixpoint first_keyword (table : list (string * string)) (text : string)
  : option string :=
  match table with
  | [] => None
  | (keyword, cat) :: rest =>
      if py_in keyword text then Some cat else first_keyword rest text
  end.

(** The text that [guess_category] searches. *)
Definition search_text (description : string) (source account_name : option string)
  : string :=
  join_space (lower <$> omap id [Some description; source; account_name]).

Definition guess_category (description : string)
    (source account_name : option string) : option string :=
  first_keyword KEYWORD_CATEGORY_MAP (search_text description source account_name).

Definition with_category (r : Row) (c : option string) : Row :=
  {| timestamp := timestamp r; amount := amount r; is_income := is_income r;
     category := c; description := description r; source := source r;
     account_name := account_name r; period := period r |}.

(** [df["category"] = None] *)
Definition add_category_column (df : DataFrame) : DataFrame :=
  {| columns := columns df ++ ["category"];
     rows := (λ r, with_category r None) <$> rows df |}.

(** [df["category"].isna() | (df["category"].astype(str).str.strip() == "")],
    read at one row. *)
Definition mask_missing (r : Row) : bool :=
  match category r with
  | None => true
  | Some c => bool_decide (strip c = "")
  end.

(** The arguments that [_categorise_row] passes to [guess_category]. *)
Definition row_description (df : DataFrame) (r : Row) : string :=
  if has_col df "description" then py_str (description r) else "".
Definition row_source (df : DataFrame) (r : Row) : option string :=
  if has_col df "source" then source r else None.
Definition row_account_name (df : DataFrame) (r : Row) : option string :=
  if has_col df "account_name" then account_name r else None.

Definition _categorise_row (df : DataFrame) (r : Row) : option string :=
  match guess_category (row_description df r) (row_source df r)
          (row_account_name df r) with
  | Some cat => Some cat
  | None => category r
  end.

(** [df.loc[mask_missing, "category"] = df.loc[mask_missing].apply(...)] on a
    frame that has the column. *)
Definition fill_categories (df : DataFrame) : DataFrame :=
  {| columns := columns df;
     rows := (λ r, if mask_missing r
                   then with_category r (_categorise_row df r) else r)
             <$> rows df |}.

(** Frames are objects: a store maps object identities to frames, and a
    function receives and returns identities. *)
Abbreviation store := (gmap nat DataFrame).

Global Instance DataFrame_inhabited : Inhabited DataFrame :=
  populate {| columns := []; rows := [] |}.

(** [df.copy()] *)
Definition copy (σ : store) (df : nat) : store * nat :=
  let new := fresh (dom σ) in (<[new := σ !!! df]> σ, new).

Definition apply_auto_categories_to_df (σ : store) (df : nat) : store * nat :=
  let σ1 :=
    if negb (has_col (σ !!! df) "category")
    then <[df := add_category_column (σ !!! df)]> σ
    else σ in
  let '(σ2, df') := copy σ1 df in
  (<[df' := fill_categories (σ2 !!! df')]> σ2, df').

(** * Specifications *)

(** The savings rate before rounding. *)
Definition unrounded_rate (df : DataFrame) : Q :=
  if decide (0 < income_sum df)%Q
  then ((income_sum df - expense_sum df) / income_sum df)%Q
  else 0%Q.

(** The total of the rows of one group. *)
Definition group_total {A K : Type} `{EqDecision K} (key : A → option K)
    (val : A → Q) (k : K) (l : list A) : Q :=
  sumQ (val <$> filter (λ r, key r = Some k) l).

(** The rows whose key is one of [ks]. *)
Definition keyed_in {A K : Type} (key : A → option K) (ks : list K) (r : A) : Prop :=
  match key r with Some k => k ∈ ks | None => False end.

Global Instance keyed_in_dec {A K : Type} `{EqDecision K} (key : A → option K)
  (ks : list K) (r : A) : Decision (keyed_in key ks r).
Proof. unfold keyed_in. destruct (key r); apply _. Defined.

(** An amount with at most two decimals. *)
Definition whole_cents (x : Q) : Prop := ∃ k : Z, (x * pow10 2 == inject_Z k)%Q.

(** The unrounded total of the expenses that have a category. *)
Definition categorised_expense_sum (df : DataFrame) : Q :=
  sumQ (amount <$> filter (λ r, is_Some (category r))
                     (filter (λ r, is_expense r = true) (rows df))).

Definition on_day (y m d : nat) : Timestamp :=
  {| ts_year := y; ts_month := m; ts_day := d; ts_seconds := 0 |}.

Definition all_columns : list string :=
  ["timestamp"; "amount"; "is_income"; "category"; "description"; "source";
   "account_name"].

(** One expense of 100 whose category is absent and that no keyword
    resolves. *)
Definition uncategorised_frame : DataFrame :=
  {| columns := all_columns;
     rows := [ {| timestamp := on_day 2025 1 5; amount := 100; is_income := false;
                  category := None; description := Some "cash withdrawal";
                  source := None; account_name := None; period := "2025-01" |} ] |}.

(** The total spent on one calendar day: the float sum of the expenses of
    that day. *)
Definition day_total (df : DataFrame) (d : date) : Q :=
  fsum (famount <$> filter (λ r, is_expense r = true ∧ date_of (timestamp r) = d)
                      (rows df)).

(** The days on which something was spent, in the order of the group-by. *)
Definition expense_days (df : DataFrame) : list date :=
  group_keys date_le (λ r, Some (date_of (timestamp r)))
    (filter (λ r, is_expense r = true) (rows df)).

(** The median of the totals of those days, as a float. *)
Definition median_daily (df : DataFrame) : Q :=
  fl (median (day_total df <$> expense_days df)).

(** The days that the detector flags: those whose total is above the float
    product of 1.5 and the median. *)
Definition spike_days (df : DataFrame) : list date :=
  if decide (0 < median_daily df)%Q
  then filter (λ d, (fmul (3 # 2) (median_daily df) < day_total df d)%Q)
         (expense_days df)
  else [].

(** The same notions in exact arithmetic on the recorded amounts, as the
    claim words them: the total of a day, the median of the totals, and the
    days whose total is strictly greater than 1.5 times the median. *)
Definition recorded_day_total (df : DataFrame) (d : date) : Q :=
  sumQ (amount <$> filter (λ r, is_expense r = true ∧ date_of (timestamp r) = d)
                     (rows df)).

Definition recorded_median (df : DataFrame) : Q :=
  median (recorded_day_total df <$> expense_days df).

Definition claimed_spike_days (df : DataFrame) : list date :=
  if decide (recorded_median df == 0)%Q then []
  else filter (λ d, ((3 # 2) * recorded_median df < recorded_day_total df d)%Q)
         (expense_days df).

(** The spend of a category in one period: the float sum of the expenses of
    that period and category. *)
Definition period_spend (df : DataFrame) (p cat : string) : Q :=
  fsum (famount <$> filter (λ r, is_expense r = true ∧ period r = p
                                  ∧ category r = Some cat) (rows df)).

(** The spend of a category in the current period, before rounding. *)
Definition current_spend (df : DataFrame) (current_period cat : string) : Q :=
  period_spend df current_period cat.

(** The periods other than the current one in which something was spent. *)
Definition baseline_periods (df : DataFrame) (current_period : string)
  : gset string :=
  list_to_set (period <$> filter (λ r, is_expense r = true
                                        ∧ period r ≠ current_period) (rows df)).

(** The average spend of a category per period, over those periods: the
    float sum of its spend in each of them, divided by their number. *)
Definition baseline_spend (df : DataFrame) (current_period cat : string) : Q :=
  fl (fsum ((λ p, period_spend df p cat)
              <$> elements (baseline_periods df current_period))
      / inject_Z (Z.of_nat (size (baseline_periods df current_period)))).

(** The trend row of a category with the given unrounded figures. *)
Definition trend_of (current baseline : Q) (cat : string) : TrendRow :=
  {| tr_category := cat;
     tr_current := py_round current 2;
     tr_baseline := py_round baseline 2;
     tr_delta := py_round (fl (current - baseline)) 2;
     tr_delta_pct :=
       if decide (0 < baseline)%Q
       then Some (py_round (fl (fl (current - baseline) / baseline)) 3)
       else None |}.

(** The invariant of the greedy assignment after [n] selectors: the labelled
    and the remaining clusters partition the clusters, no label is used
    twice, only the labels [used] occur, and at most [size ids - n] clusters
    remain. *)
Definition assign_inv (info : list ClusterInfo) (used : list string) (n : nat)
    (st : gmap nat string * gset nat) : Prop :=
  dom st.1 ## st.2
  ∧ dom st.1 ∪ st.2 = list_to_set (cluster <$> info)
  ∧ (∀ c1 c2 l, st.1 !! c1 = Some l → st.1 !! c2 = Some l → c1 = c2)
  ∧ (∀ c l, st.1 !! c = Some l → l ∈ used)
  ∧ (size st.2 ≤ size (list_to_set (cluster <$> info) : gset nat) - n)%nat.

(** A category that is absent, empty or made of white space only. *)
Definition blank (c : option string) : Prop :=
  match c with None => True | Some s => strip s = "" end.

(** [kw] occurs in [text] as a contiguous substring. *)
Definition occurs (kw text : string) : Prop := ∃ a b, text = a +:+ kw +:+ b.

(** The text that the resolver searches for a row of [df]. *)
Definition row_text (df : DataFrame) (r : Row) : string :=
  search_text (row_description df r) (row_source df r) (row_account_name df r).

(** The same text with every absent field skipped, the description
    included. *)
Definition present_text (df : DataFrame) (r : Row) : string :=
  join_space
    (lower <$> omap id [ if has_col df "description" then description r else None;
                         row_source df r; row_account_name df r ]).

(** The search string of the claim: the lower-cased description, source and
    account name one after the other with a single space in between, an
    absent field being skipped. *)
Definition concatenated_text (description source account_name : option string)
  : string :=
  match description, source, account_name with
  | Some d, Some s, Some a => lower d +:+ " " +:+ lower s +:+ " " +:+ lower a
  | Some d, Some s, None => lower d +:+ " " +:+ lower s
  | Some d, None, Some a => lower d +:+ " " +:+ lower a
  | Some d, None, None => lower d
  | None, Some s, Some a => lower s +:+ " " +:+ lower a
  | None, Some s, None => lower s
  | None, None, Some a => lower a
  | None, None, None => ""
  end.

(** A field of a row; it is absent when the frame has no such column. *)
Definition field (df : DataFrame) (col : string) (value : option string)
  : option string :=
  if has_col df col then value else None.

Definition claimed_text (df : DataFrame) (r : Row) : string :=
  concatenated_text (field df "description" (description r))
    (field df "source" (source r)) (field df "account_name" (account_name r)).

(** Five transactions for the resolver: no category and a keyword in the
    description; a blank category and two keywords, of which [prime] comes
    first in the table; a category that is present; no category and no
    keyword; no category, no description and a keyword in the source. *)
Definition resolver_rows : list Row :=
  [ {| timestamp := on_day 2025 1 5; amount := 250; is_income := false;
       category := None; description := Some "Uber ride";
       source := Some "HDFC Card"; account_name := None; period := "2025-01" |};
    {| timestamp := on_day 2025 1 6; amount := 1499; is_income := false;
       category := Some "  "; description := Some "AMAZON PRIME";
       source := None; account_name := Some "Savings"; period := "2025-01" |};
    {| timestamp := on_day 2025 1 7; amount := 600; is_income := false;
       category := Some "Gifts"; description := Some "zomato order";
       source := None; account_name := None; period := "2025-01" |};
    {| timestamp := on_day 2025 1 8; amount := 2000; is_income := false;
       category := None; description := Some "cash withdrawal";
       source := Some "ATM"; account_name := None; period := "2025-01" |};
    {| timestamp := on_day 2025 1 9; amount := 649; is_income := false;
       category := None; description := None;
       source := Some "Netflix"; account_name := None; period := "2025-01" |} ].

Definition resolver_frame : DataFrame :=
  {| columns := all_columns; rows := resolver_rows |}.

(** Two expenses of 0.004 in two categories. *)
Definition sub_cent_frame : DataFrame :=
  {| columns := all_columns;
     rows := [ {| timestamp := on_day 2025 1 5; amount := 4 # 1000;
                  is_income := false; category := Some "Food";
                  description := Some "zomato"; source := None;
                  account_name := None; period := "2025-01" |};
               {| timestamp := on_day 2025 1 6; amount := 4 # 1000;
                  is_income := false; category := Some "Transport";
                  description := Some "uber"; source := None;
                  account_name := None; period := "2025-01" |} ] |}.

(** A month with a salary and one expense under a blank category that no
    keyword resolves. *)
Definition blank_category_month : DataFrame :=
  {| columns := all_columns;
     rows := [ {| timestamp := on_day 2025 1 1; amount := 5000; is_income := true;
                  category := Some "Salary"; description := Some "salary";
                  source := None; account_name := None; period := "2025-01" |};
               {| timestamp := on_day 2025 1 5; amount := 2500; is_income := false;
                  category := Some ""; description := Some "cash withdrawal";
                  source := None; account_name := None; period := "2025-01" |} ] |}.

(** A frame that has no category column. *)
Definition no_category_frame : DataFrame :=
  {| columns := ["timestamp"; "amount"; "is_income"; "description"; "source";
                 "account_name"];
     rows := [ {| timestamp := on_day 2025 1 5; amount := 250; is_income := false;
                  category := None; description := Some "uber ride";
                  source := None; account_name := None; period := "2025-01" |} ] |}.

(** A sample month: a salary and expenses on four days, with daily totals
    100, 100, 100 and 1000. *)
Definition expense (t : Timestamp) (a : Q) (cat desc : string) : Row :=
  {| timestamp := t; amount := a; is_income := false; category := Some cat;
     description := Some desc; source := None; account_name := None;
     period := month_period t |}.

Definition income (t : Timestamp) (a : Q) (cat desc : string) : Row :=
  {| timestamp := t; amount := a; is_income := true; category := Some cat;
     description := Some desc; source := None; account_name := None;
     period := month_period t |}.

Definition january : list Row :=
  [ income (on_day 2025 1 1) 5000 "Salary" "salary";
    expense (on_day 2025 1 4) 1000 "Shopping" "amazon order";
    expense (on_day 2025 1 1) 100 "Food" "zomato";
    expense (on_day 2025 1 2) 60 "Food" "swiggy";
    expense (on_day 2025 1 2) 40 "Transport" "uber ride";
    expense (on_day 2025 1 3) 100 "Subscriptions" "netflix" ].

Definition sample_month : DataFrame :=
  {| columns := all_columns; rows := january |}.

(** A sample history of three months, tagged with its periods; in the first
    month the expenses exceed the income. *)
Definition sample_history : DataFrame :=
  {| columns := all_columns ++ ["period"];
     rows := [ income (on_day 2024 12 1) 1000 "Salary" "salary";
               expense (on_day 2024 12 3) 1200 "Housing" "rent";
               expense (on_day 2024 12 9) 300 "Food" "bigbasket" ]
             ++ january
             ++ [ income (on_day 2025 2 1) 5000 "Salary" "salary";
                  expense (on_day 2025 2 2) 1200 "Housing" "rent";
                  expense (on_day 2025 2 7) 500 "Food" "restaurant" ] |}.

(** Three days of spending in whole amounts: twice [2 ^ 52 + 1] and once
    6755399441055746.  One and a half times the former is
    6755399441055745.5, which is not a double and rounds to the latter. *)
Definition rounded_threshold_frame : DataFrame :=
  {| columns := all_columns;
     rows := [ expense (on_day 2025 1 1) 4503599627370497 "Housing" "rent";
               expense (on_day 2025 1 2) 4503599627370497 "Housing" "rent";
               expense (on_day 2025 1 3) 6755399441055746 "Housing" "rent" ] |}.

(** A history in which Food costs 10 over three earlier months and 1 in
    January 2025. *)
Definition thirds_history : DataFrame :=
  {| columns := all_columns ++ ["period"];
     rows := [ expense (on_day 2024 10 5) 1200 "Housing" "rent";
               expense (on_day 2024 11 5) 1200 "Housing" "rent";
               expense (on_day 2024 12 5) 1200 "Housing" "rent";
               expense (on_day 2024 11 9) 10 "Food" "restaurant";
               expense (on_day 2025 1 9) 1 "Food" "cafe" ] |}.

(** A history in which Food costs 10.03 over two earlier months and 6.00 in
    January 2025, and Housing is paid in an earlier month only. *)
Definition halves_history : DataFrame :=
  {| columns := all_columns ++ ["period"];
     rows := [ expense (on_day 2024 11 9) (1003 # 100) "Food" "restaurant";
               expense (on_day 2024 12 5) 1200 "Housing" "rent";
               expense (on_day 2025 1 9) 6 "Food" "cafe" ] |}.

(** A history in which Food costs 0.25 over two earlier months and 0.25 in
    January 2025. *)
Definition quarters_history : DataFrame :=
  {| columns := all_columns ++ ["period"];
     rows := [ expense (on_day 2024 11 5) 1200 "Housing" "rent";
               expense (on_day 2024 12 9) (25 # 100) "Food" "restaurant";
               expense (on_day 2025 1 9) (25 # 100) "Food" "cafe" ] |}.

(** Three days of spending: 0.70, 0.70 and 1.05. *)
Definition decimal_boundary_frame : DataFrame :=
  {| columns := all_columns;
     rows := [ expense (on_day 2025 1 1) (7 # 10) "Food" "cafe";
               expense (on_day 2025 1 2) (7 # 10) "Food" "cafe";
               expense (on_day 2025 1 3) (105 # 100) "Food" "cafe" ] |}.

(** A stand-in for k-means that deals the samples round-robin to the
    clusters. *)
Definition round_robin (k : nat) (X : list (list Q)) : list nat :=
  (λ i, i `mod` k) <$> seq 0 (length X).

(** The first character of a text. *)
Definition first_char (s : string) : option ascii :=
  match s with String c _ => Some c | EmptyString => None end.

(** The order in which the breakdown lists its entries. *)
Definition spend_desc (a b : CategoryEntry) : Prop :=
  (total_spend b <= total_spend a)%Q.

(** [df'] is [df] with other categories: the same columns apart from the
    category column, and row by row the same time stamp, amount, direction
    and description. *)
Definition recategorised (df df' : DataFrame) : Prop :=
  has_col df' "description" = has_col df "description"
  ∧ ∃ f : Row → Row,
      rows df' = f <$> rows df
      ∧ ∀ r, timestamp (f r) = timestamp r ∧ amount (f r) = amount r
             ∧ is_income (f r) = is_income r
             ∧ description (f r) = description r.

(** The categories of the keyword table. *)
Definition table_categories : list string :=
  ["Food"; "Transport"; "Subscriptions"; "Shopping"; "Housing"; "Salary";
   "Side Income"; "Bonus"; "Fees & Charges"].

(** The denominator of the shares of a month: the reported expense, or a
    millionth when that is not positive. *)
Definition expense_floor (st : Stats) : Q :=
  if decide (0 < total_expense st)%Q then total_expense st else (1 # 1000000)%Q.

(** The spend of a month on subscriptions and on shopping. *)
Definition subs_spend (df : DataFrame) : Q :=
  sumQ (amount <$> filter (λ r, subs_mask df r = true) (rows df)).

Definition shop_spend (df : DataFrame) : Q :=
  sumQ (amount <$> filter (λ r, shop_mask df r = true) (rows df)).

(** * Properties *)

(** ** Arithmetic *)

Lemma py_truediv_nonzero (a b : Q) : ¬ (b == 0)%Q → py_truediv a b = Ok (a / b)%Q.
Proof.
  intros Hb. unfold py_truediv.
  destruct (Qeq_bool b 0) eqn:E; [|done].
  by apply Qeq_bool_eq in E.
Qed.

Lemma py_truediv_pos (a b : Q) : (0 < b)%Q → py_truediv a b = Ok (a / b)%Q.
Proof. intros Hb. apply py_truediv_nonzero. lra. Qed.

Lemma round_half_even_comp (x y : Q) :
  (x == y)%Q → round_half_even x = round_half_even y.
Proof.
  intros E. unfold round_half_even.
  rewrite (Qfloor_comp x y E).
  assert (x - inject_Z (Qfloor y) == y - inject_Z (Qfloor y))%Q as E' by lra.
  by rewrite E'.
Qed.

Lemma round_half_even_Z (k : Z) : round_half_even (inject_Z k) = k.
Proof.
  unfold round_half_even. rewrite Qfloor_Z.
  assert ((inject_Z k - inject_Z k ?= 1 # 2)%Q = Lt) as ->; [|done].
  apply Qlt_alt. ring_simplify (inject_Z k - inject_Z k)%Q. done.
Qed.

Lemma pow10_pos (n : nat) : (0 < pow10 n)%Q.
Proof.
  unfold pow10. replace 0%Q with (inject_Z 0) by done.
  rewrite <- Zlt_Qlt. lia.
Qed.

Global Instance py_round_proper : Proper (Qeq ==> eq ==> Qeq) py_round.
Proof.
  intros x y E n ? <-. unfold py_round.
  assert (x * pow10 n == y * pow10 n)%Q as E' by by rewrite E.
  by rewrite (round_half_even_comp _ _ E').
Qed.

(** A value with at most [n] decimals is its own rounding. *)
Lemma py_round_exact (x : Q) (n : nat) (k : Z) :
  (x * pow10 n == inject_Z k)%Q → (py_round x n == x)%Q.
Proof.
  intros E. unfold py_round. rewrite (round_half_even_comp _ _ E), round_half_even_Z.
  pose proof (pow10_pos n). rewrite <- E. field. lra.
Qed.

Lemma py_round_0 (n : nat) : (py_round 0 n == 0)%Q.
Proof. apply (py_round_exact 0 n 0). ring. Qed.

Global Instance sumQ_proper : Proper (Forall2 Qeq ==> Qeq) sumQ.
Proof. intros l1 l2 H. induction H; simpl; [done|]. by rewrite H, IHForall2. Qed.

Lemma sumQ_app (l1 l2 : list Q) : (sumQ (l1 ++ l2) == sumQ l1 + sumQ l2)%Q.
Proof. induction l1 as [|x l1 IH]; simpl; [ring|]. rewrite IH. ring. Qed.

Lemma sumQ_perm (l1 l2 : list Q) : l1 ≡ₚ l2 → (sumQ l1 == sumQ l2)%Q.
Proof.
  induction 1 as [|x l1 l2 _ IH|x y l|l1 l2 l3 _ IH1 _ IH2]; simpl.
  - done.
  - by rewrite IH.
  - ring.
  - by rewrite IH1.
Qed.

(** ** Rounding to decimals *)

Lemma Qfloor_unique (x : Q) (z : Z) :
  (inject_Z z <= x)%Q → (x < inject_Z (z + 1))%Q → Qfloor x = z.
Proof.
  intros Hle Hlt.
  pose proof (Qfloor_le x) as H1. pose proof (Qlt_floor x) as H2.
  assert (inject_Z z < inject_Z (Qfloor x + 1))%Q as H3 by lra.
  assert (inject_Z (Qfloor x) < inject_Z (z + 1))%Q as H4 by lra.
  rewrite <- Zlt_Qlt in H3, H4. lia.
Qed.

(** Rounding half to even is symmetric about zero. *)
Lemma round_half_even_opp (x : Q) : round_half_even (- x) = (- round_half_even x)%Z.
Proof.
  unfold round_half_even.
  pose proof (Qfloor_le x) as Hle. pose proof (Qlt_floor x) as Hlt.
  rewrite inject_Z_plus in Hlt. change (inject_Z 1) with 1%Q in Hlt.
  set (f := Qfloor x) in *.
  destruct (Qeq_dec x (inject_Z f)) as [Hint|Hfrac].
  - assert (Qfloor (- x) = (- f)%Z) as ->.
    { apply Qfloor_unique; rewrite ?inject_Z_plus, inject_Z_opp;
        change (inject_Z 1) with 1%Q; lra. }
    assert ((- x - inject_Z (- f) ?= 1 # 2)%Q = Lt) as ->.
    { apply (proj1 (Qlt_alt _ _)). rewrite inject_Z_opp. lra. }
    assert ((x - inject_Z f ?= 1 # 2)%Q = Lt) as ->; [|done].
    apply (proj1 (Qlt_alt _ _)). lra.
  - assert (Qfloor (- x) = (- f - 1)%Z) as ->.
    { apply Qfloor_unique.
      - unfold Z.sub. rewrite inject_Z_plus, !inject_Z_opp.
        change (inject_Z 1) with 1%Q. lra.
      - replace (- f - 1 + 1)%Z with (- f)%Z by lia. rewrite inject_Z_opp.
        assert (inject_Z f < x)%Q; [|lra].
        apply Qle_lteq in Hle as [|Heq]; [done|]. by destruct Hfrac. }
    assert (inject_Z (- f - 1) == - inject_Z f - 1)%Q as Hinj.
    { unfold Z.sub. rewrite inject_Z_plus, !inject_Z_opp. reflexivity. }
    destruct (x - inject_Z f ?= 1 # 2)%Q eqn:Hcmp.
    + apply (proj2 (Qeq_alt _ _)) in Hcmp.
      assert ((- x - inject_Z (- f - 1) ?= 1 # 2)%Q = Eq) as ->.
      { apply (proj1 (Qeq_alt _ _)). rewrite Hinj. lra. }
      rewrite Z.even_sub, Z.even_opp. simpl.
      destruct (Z.even f); simpl; lia.
    + apply (proj2 (Qlt_alt _ _)) in Hcmp.
      assert ((- x - inject_Z (- f - 1) ?= 1 # 2)%Q = Gt) as ->.
      { apply (proj1 (Qgt_alt _ _)). rewrite Hinj. lra. }
      lia.
    + apply (proj2 (Qgt_alt _ _)) in Hcmp.
      assert ((- x - inject_Z (- f - 1) ?= 1 # 2)%Q = Lt) as ->.
      { apply (proj1 (Qlt_alt _ _)). rewrite Hinj. lra. }
      lia.
Qed.

Lemma py_round_opp (x : Q) (n : nat) : (py_round (- x) n == - py_round x n)%Q.
Proof.
  unfold py_round. pose proof (pow10_pos n).
  assert (- x * pow10 n == - (x * pow10 n))%Q as E by ring.
  rewrite (round_half_even_comp _ _ E), round_half_even_opp, inject_Z_opp.
  field. lra.
Qed.

Lemma round_half_even_bounds (x : Q) :
  (x - (1 # 2) <= inject_Z (round_half_even x) <= x + (1 # 2))%Q.
Proof.
  unfold round_half_even.
  pose proof (Qfloor_le x) as Hle. pose proof (Qlt_floor x) as Hlt.
  rewrite inject_Z_plus in Hlt. change (inject_Z 1) with 1%Q in Hlt.
  destruct (x - inject_Z (Qfloor x) ?= 1 # 2)%Q eqn:Hcmp.
  - apply (proj2 (Qeq_alt _ _)) in Hcmp.
    destruct (Z.even (Qfloor x)); rewrite ?inject_Z_plus;
      change (inject_Z 1) with 1%Q; lra.
  - apply (proj2 (Qlt_alt _ _)) in Hcmp. lra.
  - apply (proj2 (Qgt_alt _ _)) in Hcmp. rewrite inject_Z_plus.
    change (inject_Z 1) with 1%Q. lra.
Qed.

Lemma round_half_even_le (x y : Q) :
  (x <= y)%Q → (round_half_even x ≤ round_half_even y)%Z.
Proof.
  intros Hxy.
  destruct (Z_le_gt_dec (round_half_even x) (round_half_even y)) as [|Hgt]; [done|].
  exfalso.
  pose proof (round_half_even_bounds x) as [_ Hx].
  pose proof (round_half_even_bounds y) as [Hy _].
  assert (inject_Z (round_half_even y) + 1 <= inject_Z (round_half_even x))%Q as Hstep.
  { change 1%Q with (inject_Z 1). rewrite <- inject_Z_plus, <- Zle_Qle. lia. }
  assert (x == y)%Q as Heq by lra.
  rewrite (round_half_even_comp _ _ Heq) in Hgt. lia.
Qed.

Lemma py_round_le (x y : Q) (n : nat) : (x <= y)%Q → (py_round x n <= py_round y n)%Q.
Proof.
  intros Hxy. unfold py_round. pose proof (pow10_pos n) as Hp.
  apply Qmult_le_compat_r; [|apply Qlt_le_weak, Qinv_lt_0_compat, Hp].
  rewrite <- Zle_Qle. apply round_half_even_le.
  apply Qmult_le_compat_r; [done|lra].
Qed.

Lemma py_round_nonneg (x : Q) (n : nat) : (0 <= x)%Q → (0 <= py_round x n)%Q.
Proof. intros Hx. rewrite <- (py_round_0 n). by apply py_round_le. Qed.

Lemma py_round_1 (n : nat) : (py_round 1 n == 1)%Q.
Proof.
  apply (py_round_exact 1 n (10 ^ Z.of_nat n)). unfold pow10. ring.
Qed.

(** ** Rounding to binary64 *)

Lemma pow2_pos (e : Z) : (0 < pow2 e)%Q.
Proof. by apply Qpower_0_lt. Qed.

Lemma pow2_plus (a b : Z) : (pow2 (a + b) == pow2 a * pow2 b)%Q.
Proof. by apply Qpower_plus. Qed.

Lemma pow2_le (a b : Z) : (a ≤ b)%Z → (pow2 a <= pow2 b)%Q.
Proof. intros H. by apply Qpower_le_compat_l. Qed.

Lemma pow2_lt (a b : Z) : (a < b)%Z → (pow2 a < pow2 b)%Q.
Proof. intros H. by apply Qpower_lt_compat_l. Qed.

Lemma pow2_lt_inv (a b : Z) : (pow2 a < pow2 b)%Q → (a < b)%Z.
Proof. intros H. by apply (Qpower_lt_compat_l_inv 2). Qed.

Lemma pow2_Z (n : Z) : (0 ≤ n)%Z → (pow2 n == inject_Z (2 ^ n))%Q.
Proof. intros H. unfold pow2. by rewrite Zpower_Qpower. Qed.

Lemma pow2_succ (a : Z) : (pow2 (a + 1) == 2 * pow2 a)%Q.
Proof. rewrite pow2_plus. unfold pow2 at 2. simpl. ring. Qed.

Lemma pow2_pred (a : Z) : (pow2 (a - 1) == pow2 a / 2)%Q.
Proof.
  rewrite <- (Z.sub_add 1 a) at 2. rewrite pow2_succ. field.
Qed.

(** The integer logarithm brackets a positive integer. *)
Lemma log2_bracket (n : Z) :
  (0 < n)%Z →
  (pow2 (Z.log2 n) <= inject_Z n)%Q ∧ (inject_Z n < pow2 (Z.log2 n + 1))%Q.
Proof.
  intros Hn. destruct (Z.log2_spec n Hn) as [Hlo Hhi].
  pose proof (Z.log2_nonneg n).
  rewrite !pow2_Z by lia. rewrite <- Zle_Qle, <- Zlt_Qlt. split; [done|].
  by rewrite Z.add_1_r.
Qed.

(** The binade of a number brackets its magnitude. *)
Lemma binade_spec (x : Q) :
  ¬ (x == 0)%Q →
  (pow2 (binade x - 1) <= Qabs x)%Q ∧ (Qabs x < pow2 (binade x))%Q.
Proof.
  intros Hx. unfold binade.
  set (n := Z.abs (Qnum x)). set (d := Zpos (Qden x)).
  assert (0 < n)%Z as Hn.
  { unfold n. destruct x as [[|p|p] q]; simpl; try lia. by destruct Hx. }
  assert (0 < d)%Z as Hd by done.
  destruct (log2_bracket n Hn) as [Hn1 Hn2].
  destruct (log2_bracket d Hd) as [Hd1 Hd2].
  set (ln := Z.log2 n) in *. set (ld := Z.log2 d) in *.
  assert (Qabs x * inject_Z d == inject_Z n)%Q as Habs.
  { unfold n, d. destruct x as [a q]. unfold Qabs, Qeq, Qmult, inject_Z. simpl.
    lia. }
  pose proof (pow2_pos (ln - ld)) as Hk.
  pose proof (pow2_pos ld) as Hld.
  assert (pow2 ln == pow2 (ln - ld) * pow2 ld)%Q as Hsplit.
  { rewrite <- pow2_plus. by rewrite Z.sub_add. }
  assert (0 <= Qabs x)%Q as Hnonneg by apply Qabs_nonneg.
  assert (0 < inject_Z d)%Q as HdQ by (by rewrite <- (Zlt_Qlt 0)).
  destruct (Qle_bool (pow2 (ln - ld)) (Qabs x)) eqn:Hcmp.
  - apply Qle_bool_iff in Hcmp. rewrite Z.add_simpl_r. split; [done|].
    rewrite pow2_succ.
    rewrite pow2_succ in Hn2, Hd2.
    apply Qnot_le_lt. intros Hge.
    assert (2 * pow2 (ln - ld) * pow2 ld <= Qabs x * inject_Z d)%Q.
    { apply Qle_trans with (Qabs x * pow2 ld)%Q.
      - apply Qmult_le_compat_r; [done|lra].
      - rewrite !(Qmult_comm (Qabs x)). apply Qmult_le_compat_r; [done|done]. }
    lra.
  - assert (Qabs x < pow2 (ln - ld))%Q as Hlt.
    { apply Qnot_le_lt. intros Hle. apply Qle_bool_iff in Hle. congruence. }
    split; [|done].
    rewrite pow2_pred. rewrite pow2_succ in Hn2, Hd2.
    apply Qnot_lt_le. intros Hlt2.
    assert (Qabs x * inject_Z d < pow2 (ln - ld) / 2 * (2 * pow2 ld))%Q.
    { apply Qle_lt_trans with (Qabs x * (2 * pow2 ld))%Q.
      - rewrite !(Qmult_comm (Qabs x)). apply Qmult_le_compat_r; [lra|done].
      - apply Qmult_lt_compat_r; [lra|done]. }
    assert (pow2 (ln - ld) / 2 * (2 * pow2 ld) == pow2 ln)%Q as Heq
      by (rewrite Hsplit; field).
    lra.
Qed.

Lemma binade_unique (x : Q) (e : Z) :
  (pow2 (e - 1) <= Qabs x)%Q → (Qabs x < pow2 e)%Q → binade x = e.
Proof.
  intros Hlo Hhi.
  assert (¬ (x == 0)%Q) as Hx.
  { intros H0. rewrite H0 in Hlo. pose proof (pow2_pos (e - 1)).
    change (Qabs 0) with 0%Q in Hlo. lra. }
  destruct (binade_spec x Hx) as [Hlo' Hhi'].
  assert (e - 1 < binade x)%Z by (apply pow2_lt_inv; lra).
  assert (binade x - 1 < e)%Z by (apply pow2_lt_inv; lra).
  lia.
Qed.

Lemma binade_opp (x : Q) : binade (- x) = binade x.
Proof.
  unfold binade, Qabs. destruct x as [n d]. simpl. by rewrite !Z.abs_opp.
Qed.

(** The magnitude is monotone in the binade. *)
Lemma binade_le (x y : Q) :
  ¬ (x == 0)%Q → (Qabs x <= Qabs y)%Q → (binade x ≤ binade y)%Z.
Proof.
  intros Hx Hxy.
  assert (¬ (y == 0)%Q) as Hy.
  { intros H0. rewrite H0 in Hxy. change (Qabs 0) with 0%Q in Hxy.
    apply Hx. revert Hxy. apply Qabs_case; intros; lra. }
  destruct (binade_spec x Hx) as [Hlo _].
  destruct (binade_spec y Hy) as [_ Hhi].
  assert (binade x - 1 < binade y)%Z by (apply pow2_lt_inv; lra). lia.
Qed.

Lemma fl_comp (x y : Q) : (x == y)%Q → fl x = fl y.
Proof. intros H. unfold fl. by rewrite (Qred_complete _ _ H). Qed.

Lemma fl_unfold (x : Q) :
  (fl x == inject_Z (round_half_even (x / pow2 (ulp_exponent (Qred x))))
           * pow2 (ulp_exponent (Qred x)))%Q.
Proof.
  unfold fl. simpl. etransitivity; [apply Qred_correct|].
  assert (Qred x / pow2 (ulp_exponent (Qred x))
          == x / pow2 (ulp_exponent (Qred x)))%Q as H
    by (apply Qmult_comp; [apply Qred_correct|reflexivity]).
  by rewrite (round_half_even_comp _ _ H).
Qed.

Lemma ulp_exponent_min (x : Q) : (-1074 ≤ ulp_exponent x)%Z.
Proof. unfold ulp_exponent. lia. Qed.

Lemma fl_0 : (fl 0 == 0)%Q.
Proof. by vm_compute. Qed.

Lemma fl_opp (x : Q) : (fl (- x) == - fl x)%Q.
Proof.
  rewrite !fl_unfold.
  assert (ulp_exponent (Qred (- x)) = ulp_exponent (Qred x)) as ->.
  { unfold ulp_exponent. by rewrite Qred_opp, binade_opp. }
  set (u := ulp_exponent (Qred x)).
  assert (- x / pow2 u == - (x / pow2 u))%Q as H
    by (field; pose proof (pow2_pos u); lra).
  rewrite (round_half_even_comp _ _ H), round_half_even_opp, inject_Z_opp. ring.
Qed.

(** Rounding keeps a number on its side of every multiple of its unit in
    the last place. *)
Lemma fl_ge_multiple (x : Q) (z : Z) :
  (inject_Z z * pow2 (ulp_exponent (Qred x)) <= x)%Q →
  (inject_Z z * pow2 (ulp_exponent (Qred x)) <= fl x)%Q.
Proof.
  intros H. rewrite fl_unfold. set (u := ulp_exponent (Qred x)) in *.
  pose proof (pow2_pos u) as Hu.
  apply Qmult_le_compat_r; [|lra].
  rewrite <- Zle_Qle, <- (round_half_even_Z z). apply round_half_even_le.
  apply Qle_shift_div_l; [done|done].
Qed.

Lemma fl_le_multiple (x : Q) (z : Z) :
  (x <= inject_Z z * pow2 (ulp_exponent (Qred x)))%Q →
  (fl x <= inject_Z z * pow2 (ulp_exponent (Qred x)))%Q.
Proof.
  intros H. rewrite fl_unfold. set (u := ulp_exponent (Qred x)) in *.
  pose proof (pow2_pos u) as Hu.
  apply Qmult_le_compat_r; [|lra].
  rewrite <- Zle_Qle.
  pose proof (round_half_even_le (x / pow2 u) (inject_Z z)) as Hle.
  rewrite round_half_even_Z in Hle. apply Hle.
  apply Qle_shift_div_r; [done|done].
Qed.

Lemma fl_nonneg (x : Q) : (0 <= x)%Q → (0 <= fl x)%Q.
Proof.
  intros H. pose proof (fl_ge_multiple x 0) as H0.
  rewrite Qmult_0_l in H0. by apply H0.
Qed.

Lemma fl_nonpos (x : Q) : (x <= 0)%Q → (fl x <= 0)%Q.
Proof.
  intros H. pose proof (fl_le_multiple x 0) as H0.
  rewrite Qmult_0_l in H0. by apply H0.
Qed.

Lemma pow2_le_inv (a b : Z) : (pow2 a <= pow2 b)%Q → (a ≤ b)%Z.
Proof.
  intros H. destruct (Z_le_gt_dec a b) as [|Hgt]; [done|].
  pose proof (pow2_lt b a ltac:(lia)). lra.
Qed.

Lemma Qred_abs (x : Q) : (Qabs (Qred x) == Qabs x)%Q.
Proof. by rewrite Qred_correct. Qed.

(** A multiple of a unit of at most 53 bits is a float. *)
Lemma fl_fixed (r : Q) (m u : Z) :
  (r == inject_Z m * pow2 u)%Q → (-1074 ≤ u)%Z → (Z.abs m ≤ 2 ^ 53)%Z →
  is_float r.
Proof.
  intros Hr Hu Hm. unfold is_float.
  destruct (decide (m = 0%Z)) as [->|Hm0].
  { assert (r == 0)%Q as H0 by (rewrite Hr; ring).
    rewrite (fl_comp _ _ H0), H0. apply fl_0. }
  pose proof (pow2_pos u) as Hpu.
  assert (Qabs r == inject_Z (Z.abs m) * pow2 u)%Q as Habs.
  { rewrite Hr, Qabs_Qmult. rewrite (Qabs_pos (pow2 u)) by lra.
    apply Qmult_comp; [|reflexivity]. unfold Qabs, inject_Z. simpl. reflexivity. }
  assert (Qabs r <= pow2 (53 + u))%Q as Hhi.
  { rewrite Habs, pow2_plus, (pow2_Z 53) by lia.
    apply Qmult_le_compat_r; [|lra]. by rewrite <- Zle_Qle. }
  assert (¬ (Qred r == 0)%Q) as Hnz.
  { rewrite Qred_correct, Hr. intros H0.
    apply Qmult_integral in H0 as [H0|H0]; [|lra].
    apply Hm0. by apply (proj1 (inject_Z_injective m 0)). }
  destruct (binade_spec (Qred r) Hnz) as [Hlo _].
  rewrite Qred_abs in Hlo.
  assert (binade (Qred r) - 1 ≤ 53 + u)%Z as He by (apply pow2_le_inv; lra).
  assert (∃ z, r == inject_Z z * pow2 (ulp_exponent (Qred r)))%Q as [z Hz].
  { unfold ulp_exponent in *. set (e := binade (Qred r)) in *.
    destruct (Z_le_gt_dec (Z.max (e - 53) (-1074)) u) as [Hle|Hgt].
    - exists (m * 2 ^ (u - Z.max (e - 53) (-1074)))%Z.
      rewrite inject_Z_mult, <- pow2_Z by lia.
      rewrite <- Qmult_assoc, <- pow2_plus, Z.sub_add. done.
    - assert (e = 54 + u)%Z as -> by lia.
      replace (Z.max (54 + u - 53) (-1074)) with (u + 1)%Z by lia.
      replace (54 + u - 1)%Z with (53 + u)%Z in Hlo by lia.
      assert (inject_Z (Z.abs m) * pow2 u == inject_Z (2 ^ 53) * pow2 u)%Q as Heq.
      { rewrite <- (pow2_Z 53), <- pow2_plus by lia.
        apply Qle_antisym; rewrite <- Habs; [done|done]. }
      apply Qmult_inj_r in Heq; [|lra].
      apply (proj1 (inject_Z_injective _ _)) in Heq.
      exists (m / 2)%Z. rewrite pow2_succ, Hr.
      assert (m = 2 * (m / 2))%Z as Hdiv.
      { apply Z.div_exact; [done|].
        destruct (Z.abs_eq_or_opp m) as [Hs|Hs]; rewrite Hs in Heq.
        - by rewrite Heq.
        - assert (m = - 2 ^ 53)%Z as -> by lia. done. }
      replace (inject_Z m) with (inject_Z (2 * (m / 2))) by (by rewrite <- Hdiv).
      rewrite inject_Z_mult. ring. }
  apply Qle_antisym.
  - rewrite Hz at 2. apply fl_le_multiple. rewrite <- Hz. apply Qle_refl.
  - rewrite Hz at 1. apply fl_ge_multiple. rewrite <- Hz. apply Qle_refl.
Qed.

Lemma is_float_Z (n : Z) : (Z.abs n ≤ 2 ^ 53)%Z → is_float (inject_Z n).
Proof.
  intros Hn. apply (fl_fixed _ n 0); [|lia|done].
  unfold pow2. simpl. ring.
Qed.

(** The result of a rounding is a float. *)
Lemma fl_is_float (x : Q) : is_float (fl x).
Proof.
  set (u := ulp_exponent (Qred x)).
  apply (fl_fixed _ (round_half_even (x / pow2 u)) u);
    [apply fl_unfold|apply ulp_exponent_min|].
  pose proof (pow2_pos u) as Hpu.
  assert (Qabs x <= pow2 (53 + u))%Q as Hx.
  { destruct (Qeq_dec x 0) as [H0|Hnz].
    - rewrite H0. change (Qabs 0) with 0%Q. pose proof (pow2_pos (53 + u)). lra.
    - assert (¬ (Qred x == 0)%Q) as Hnz' by by rewrite Qred_correct.
      destruct (binade_spec _ Hnz') as [_ Hhi]. rewrite Qred_abs in Hhi.
      assert (pow2 (binade (Qred x)) <= pow2 (53 + u))%Q
        by (apply pow2_le; unfold u, ulp_exponent; lia).
      lra. }
  rewrite pow2_plus, (pow2_Z 53) in Hx by lia.
  assert (- inject_Z (2 ^ 53) <= x / pow2 u <= inject_Z (2 ^ 53))%Q as [Hlo Hhi].
  { revert Hx. apply Qabs_case; intros Hs Hx; split.
    - apply Qle_trans with 0%Q; [by vm_compute|].
      apply Qle_shift_div_l; [done|lra].
    - apply Qle_shift_div_r; [done|lra].
    - apply Qle_shift_div_l; [done|lra].
    - apply Qle_trans with 0%Q; [|by vm_compute].
      apply Qle_shift_div_r; [done|lra]. }
  apply round_half_even_le in Hlo, Hhi.
  rewrite <- inject_Z_opp, round_half_even_Z in Hlo.
  rewrite round_half_even_Z in Hhi. lia.
Qed.

Lemma fl_fl (x : Q) : (fl (fl x) == fl x)%Q.
Proof. apply fl_is_float. Qed.

(** Rounding is monotone. *)
Lemma fl_le_pos (x y : Q) : (0 < x)%Q → (x <= y)%Q → (fl x <= fl y)%Q.
Proof.
  intros Hx Hxy.
  assert (¬ (Qred x == 0)%Q) as Hnx by (rewrite Qred_correct; lra).
  assert (¬ (Qred y == 0)%Q) as Hny by (rewrite Qred_correct; lra).
  assert (Qabs (Qred x) == x)%Q as Hax by (rewrite Qred_abs, Qabs_pos; lra).
  assert (Qabs (Qred y) == y)%Q as Hay by (rewrite Qred_abs, Qabs_pos; lra).
  assert (binade (Qred x) ≤ binade (Qred y))%Z as Hb
    by (apply binade_le; [done|lra]).
  destruct (binade_spec _ Hnx) as [_ Hxhi].
  destruct (binade_spec _ Hny) as [Hylo _].
  rewrite Hax in Hxhi. rewrite Hay in Hylo.
  destruct (decide (ulp_exponent (Qred x) = ulp_exponent (Qred y))) as [Heq|Hne].
  - rewrite !fl_unfold, Heq. set (u := ulp_exponent (Qred y)).
    pose proof (pow2_pos u) as Hpu.
    apply Qmult_le_compat_r; [|lra].
    rewrite <- Zle_Qle. apply round_half_even_le.
    apply Qmult_le_compat_r; [done|]. apply Qlt_le_weak, Qinv_lt_0_compat, Hpu.
  - unfold ulp_exponent in *.
    set (ex := binade (Qred x)) in *. set (ey := binade (Qred y)) in *.
    apply Qle_trans with (pow2 (ey - 1)).
    + assert (pow2 (ey - 1)
              == inject_Z (2 ^ (ey - 1 - Z.max (ex - 53) (-1074)))
                 * pow2 (Z.max (ex - 53) (-1074)))%Q as Ht.
      { rewrite <- pow2_Z by lia. by rewrite <- pow2_plus, Z.sub_add. }
      pose proof (fl_le_multiple x (2 ^ (ey - 1 - Z.max (ex - 53) (-1074)))) as H.
      unfold ulp_exponent in H. fold ex in H. rewrite <- Ht in H. apply H.
      assert (pow2 ex <= pow2 (ey - 1))%Q by (apply pow2_le; lia). lra.
    + assert (pow2 (ey - 1)
              == inject_Z (2 ^ 52) * pow2 (Z.max (ey - 53) (-1074)))%Q as Ht.
      { rewrite <- pow2_Z by lia. rewrite <- pow2_plus.
        replace (52 + Z.max (ey - 53) (-1074))%Z with (ey - 1)%Z by lia.
        reflexivity. }
      pose proof (fl_ge_multiple y (2 ^ 52)) as H.
      unfold ulp_exponent in H. fold ey in H. rewrite <- Ht in H. by apply H.
Qed.

Lemma fl_le (x y : Q) : (x <= y)%Q → (fl x <= fl y)%Q.
Proof.
  intros Hxy.
  destruct (Qlt_le_dec 0 x) as [Hx|Hx]; [by apply fl_le_pos|].
  destruct (Qlt_le_dec y 0) as [Hy|Hy].
  - assert (fl (- y) <= fl (- x))%Q as H by (apply fl_le_pos; lra).
    rewrite !fl_opp in H. lra.
  - pose proof (fl_nonpos x Hx). pose proof (fl_nonneg y Hy). lra.
Qed.

(** From here on the rounding is used through its lemmas. *)
Global Opaque fl.

(** ** The stats engine *)

Lemma compute_basic_stats_eq (df : DataFrame) :
  compute_basic_stats df =
  Ok {| total_income := py_round (income_sum df) 2;
        total_expense := py_round (expense_sum df) 2;
        net := py_round (income_sum df - expense_sum df) 2;
        savings_rate := py_round (unrounded_rate df) 3 |}.
Proof.
  unfold compute_basic_stats, unrounded_rate.
  destruct (decide (0 < income_sum df)%Q) as [Hpos|Hneg]; simpl; [|done].
  by rewrite (py_truediv_pos _ _ Hpos).
Qed.

Lemma income_sum_no_income (df : DataFrame) :
  Forall (λ r, is_income r = false) (rows df) → income_sum df = 0%Q.
Proof.
  unfold income_sum. intros H.
  induction H as [|r l Hr _ IH]; [done|].
  rewrite filter_cons_False; [done|]. by rewrite Hr.
Qed.

(** C7: the stats engine always returns; the reported figures are the
    roundings of the unrounded income, expense and of their exact difference,
    so that [net = total_income - total_expense] holds before rounding; and
    with no income transaction, or with a total income of zero, the reported
    savings rate is exactly zero. *)
Theorem basic_stats_net_and_rate (df : DataFrame) :
  ∃ st, compute_basic_stats df = Ok st
    ∧ total_income st = py_round (income_sum df) 2
    ∧ total_expense st = py_round (expense_sum df) 2
    ∧ net st = py_round (income_sum df - expense_sum df) 2
    ∧ (Forall (λ r, is_income r = false) (rows df) → (savings_rate st == 0)%Q)
    ∧ ((income_sum df == 0)%Q → (savings_rate st == 0)%Q).
Proof.
  eexists. split; [apply compute_basic_stats_eq|]. simpl.
  repeat split.
  - intros H. unfold unrounded_rate. rewrite (income_sum_no_income df H).
    destruct (decide (0 < 0)%Q); [lra|]. apply py_round_0.
  - intros H. unfold unrounded_rate.
    destruct (decide (0 < income_sum df)%Q); [lra|]. apply py_round_0.
Qed.

(** ** The cash-flow flag *)

Lemma detect_patterns_flag (df : DataFrame) (st : Stats) :
  has_col df "description" = true →
  compute_basic_stats df = Ok st →
  ∃ p, detect_patterns df = Ok p ∧ cashflow_flag p = cashflow_of st.
Proof.
  intros Hcol Hst. unfold detect_patterns. rewrite Hcol. simpl.
  destruct (impulse_block df) as [ds extra]. rewrite Hst. simpl.
  eexists. split; [done|]. done.
Qed.

(** C8: on a frame with a description column the pattern detector returns,
    and its cash-flow flag is the ordered classifier applied to the stats of
    the same frame: "critical" whenever the net is negative, otherwise
    "warning" whenever the savings rate is below 0.10, otherwise "ok". *)
Theorem cashflow_flag_ordered (df : DataFrame) :
  has_col df "description" = true →
  ∃ p st, detect_patterns df = Ok p ∧ compute_basic_stats df = Ok st
    ∧ ((net st < 0)%Q → cashflow_flag p = "critical")
    ∧ (¬ (net st < 0)%Q → (savings_rate st < 1 # 10)%Q →
       cashflow_flag p = "warning")
    ∧ (¬ (net st < 0)%Q → ¬ (savings_rate st < 1 # 10)%Q →
       cashflow_flag p = "ok").
Proof.
  intros Hcol.
  pose proof (compute_basic_stats_eq df) as Hst.
  destruct (detect_patterns_flag df _ Hcol Hst) as (p & Hp & Hflag).
  eexists p, _. split; [done|]. split; [done|].
  rewrite Hflag. unfold cashflow_of.
  repeat split; intros; repeat case_decide; done.
Qed.

(** ** Group-by *)

Lemma filter_ext_in {A : Type} (P Q : A → Prop) `{∀ x, Decision (P x)}
    `{∀ x, Decision (Q x)} (l : list A) :
  (∀ x, x ∈ l → P x ↔ Q x) → filter P l = filter Q l.
Proof.
  induction l as [|x l IH]; intros HPQ; [done|].
  rewrite !filter_cons.
  rewrite IH by (intros y Hy; apply HPQ; by right).
  destruct (decide (P x)) as [HP|HP], (decide (Q x)) as [HQ|HQ]; try done;
    exfalso; apply (HPQ x) in HP || apply (HPQ x) in HQ; try done; by left.
Qed.

Lemma filter_none {A : Type} (P : A → Prop) `{∀ x, Decision (P x)} (l : list A) :
  (∀ x, x ∈ l → ¬ P x) → filter P l = [].
Proof.
  induction l as [|x l IH]; intros HP; [done|].
  rewrite filter_cons_False by (apply HP; left).
  apply IH. intros y Hy. apply HP. by right.
Qed.

Section groupby_facts.
Context {A K : Type} `{EqDecision K} (le : relation K) `{!RelDecision le}.
Context (key : A → option K) (val : A → Q).

Lemma sum_filter_split (P Q : A → Prop) `{∀ x, Decision (P x)}
    `{∀ x, Decision (Q x)} (l : list A) :
  (∀ x, P x → Q x → False) →
  (sumQ (val <$> filter (λ x, P x ∨ Q x) l)
   == sumQ (val <$> filter P l) + sumQ (val <$> filter Q l))%Q.
Proof.
  intros Hdisj. induction l as [|x l IH]; [done|].
  rewrite !filter_cons.
  destruct (decide (P x)) as [HP|HP], (decide (Q x)) as [HQ|HQ].
  - destruct (Hdisj x HP HQ).
  - rewrite decide_True by auto. rewrite !fmap_cons. simpl. rewrite IH. ring.
  - rewrite decide_True by auto. rewrite !fmap_cons. simpl. rewrite IH. ring.
  - rewrite decide_False by tauto. done.
Qed.

Lemma sum_groups (ks : list K) (l : list A) :
  NoDup ks →
  (sumQ ((λ k, group_total key val k l) <$> ks)
   == sumQ (val <$> filter (keyed_in key ks) l))%Q.
Proof.
  induction 1 as [|k ks Hk _ IH]; simpl.
  - rewrite filter_none; [apply Qeq_refl|].
    intros r _. unfold keyed_in. destruct (key r); [|tauto].
    by intros ?%elem_of_nil.
  - rewrite IH. unfold group_total.
    rewrite (filter_ext_in (keyed_in key (k :: ks))
               (λ r, key r = Some k ∨ keyed_in key ks r)).
    + symmetry. apply sum_filter_split.
      intros r Hr. unfold keyed_in. rewrite Hr. done.
    + intros r _. unfold keyed_in. destruct (key r) as [k'|].
      * rewrite elem_of_cons.
        split; (intros [Heq|Hin]; [left; congruence|by right]).
      * split; [done|]. by intros [?|[]].
Qed.

Lemma group_keys_perm (l : list A) :
  group_keys le key l ≡ₚ remove_dups (omap key l).
Proof. apply merge_sort_Permutation. Qed.

Lemma NoDup_group_keys (l : list A) : NoDup (group_keys le key l).
Proof. rewrite group_keys_perm. apply NoDup_remove_dups. Qed.

Lemma elem_of_group_keys (l : list A) (k : K) :
  k ∈ group_keys le key l ↔ ∃ r, r ∈ l ∧ key r = Some k.
Proof.
  rewrite group_keys_perm, elem_of_remove_dups. apply list_elem_of_omap.
Qed.

Lemma groupby_sum_eq (l : list A) :
  groupby_sum le key val l
  = (λ k, (k, group_total key val k l)) <$> group_keys le key l.
Proof. done. Qed.

(** The groups partition the rows that have a key. *)
Lemma groupby_sum_total (l : list A) :
  (sumQ (groupby_sum le key val l).*2
   == sumQ (val <$> filter (λ r, is_Some (key r)) l))%Q.
Proof.
  rewrite groupby_sum_eq, <- list_fmap_compose.
  change (snd ∘ _) with (λ k, group_total key val k l).
  rewrite sum_groups by apply NoDup_group_keys.
  erewrite filter_ext_in; [done|].
  intros r Hr. unfold keyed_in.
  destruct (key r) as [k|] eqn:Hk.
  - split; [by eauto|]. intros _. apply elem_of_group_keys. eauto.
  - split; [done|]. by intros [? ?].
Qed.

Lemma series_get_fmap (f : K → Q) (ks : list K) (k : K) :
  series_get k ((λ k, (k, f k)) <$> ks) = if decide (k ∈ ks) then f k else 0%Q.
Proof.
  unfold series_get. induction ks as [|k' ks IH]; [done|].
  simpl. destruct (decide (k' = k)) as [->|Hne]; simpl.
  - rewrite decide_True by left. done.
  - destruct (list_find _ _) as [[i kv]|] eqn:Hfind; simpl in *.
    + destruct (decide (k ∈ ks)) as [Hin|Hnin].
      * rewrite decide_True by (by right). done.
      * rewrite decide_False; [done|]. rewrite elem_of_cons.
        intros [?|?]; [congruence|done].
    + destruct (decide (k ∈ ks)) as [Hin|Hnin].
      * rewrite decide_True by (by right). done.
      * rewrite decide_False; [done|]. rewrite elem_of_cons.
        intros [?|?]; [congruence|done].
Qed.

(** Looking a key up in the grouped sums gives the total of its rows, zero
    when the key has no row. *)
Lemma series_get_groupby (l : list A) (k : K) :
  series_get k (groupby_sum le key val l) = group_total key val k l.
Proof.
  rewrite groupby_sum_eq, series_get_fmap.
  destruct (decide _) as [|Hnin]; [done|].
  unfold group_total.
  rewrite filter_none; [done|].
  intros r Hr Hk. apply Hnin, elem_of_group_keys. eauto.
Qed.
Lemma series_get_groupby_fsum (l : list A) (k : K) :
  series_get k (groupby_fsum le key val l)
  = fsum (val <$> filter (λ r, key r = Some k) l).
Proof.
  unfold groupby_fsum.
  rewrite (series_get_fmap (λ k, fsum (val <$> filter (λ r, key r = Some k) l))).
  destruct (decide _) as [|Hnin]; [done|].
  rewrite filter_none; [by vm_compute|].
  intros r Hr Hk. apply Hnin, elem_of_group_keys. eauto.
Qed.
End groupby_facts.

(** ** The category breakdown *)

Lemma whole_cents_plus (x y : Q) : whole_cents x → whole_cents y → whole_cents (x + y).
Proof.
  intros [a Ha] [b Hb]. exists (a + b)%Z.
  rewrite inject_Z_plus, <- Ha, <- Hb. ring.
Qed.

Lemma whole_cents_sumQ (l : list Q) : Forall whole_cents l → whole_cents (sumQ l).
Proof.
  induction 1 as [|x l Hx _ IH]; simpl.
  - exists 0%Z. ring.
  - by apply whole_cents_plus.
Qed.

Lemma py_round_cents (x : Q) : whole_cents x → (py_round x 2 == x)%Q.
Proof. intros [k Hk]. by apply (py_round_exact x 2 k). Qed.

Lemma whole_cents_amounts (P : Row → Prop) `{∀ r, Decision (P r)} (l : list Row) :
  Forall (λ r, whole_cents (amount r)) l →
  whole_cents (sumQ (amount <$> filter P l)).
Proof.
  intros Hl. apply whole_cents_sumQ, Forall_fmap.
  apply Forall_forall. intros r [_ Hr]%list_elem_of_filter.
  by apply (proj1 (Forall_forall _ _) Hl).
Qed.

(** The entries of the breakdown, read off the grouped expenses. *)
Lemma breakdown_entries (df : DataFrame) :
  has_col df "category" = true →
  compute_category_breakdown df
  = (λ kv, {| entry_category := Some kv.1; total_spend := py_round kv.2 2 |})
    <$> merge_sort amount_desc
          (groupby_sum String.le category amount
             (filter (λ r, is_expense r = true) (rows df))).
Proof.
  intros Hcol. unfold compute_category_breakdown. rewrite Hcol. simpl.
  case_bool_decide as Hexp; [|done]. by rewrite Hexp.
Qed.

Lemma breakdown_sum_rounded (df : DataFrame) :
  has_col df "category" = true →
  (sumQ (total_spend <$> compute_category_breakdown df)
   == sumQ ((λ kv, py_round kv.2 2)
              <$> groupby_sum String.le category amount
                    (filter (λ r, is_expense r = true) (rows df))))%Q.
Proof.
  intros Hcol. rewrite (breakdown_entries df Hcol), <- list_fmap_compose.
  apply sumQ_perm, fmap_Permutation, merge_sort_Permutation.
Qed.

Lemma breakdown_categories (df : DataFrame) (c : string) :
  has_col df "category" = true →
  (∃ e, e ∈ compute_category_breakdown df ∧ entry_category e = Some c)
  ↔ (∃ r, r ∈ rows df ∧ is_expense r = true ∧ category r = Some c).
Proof.
  intros Hcol. rewrite (breakdown_entries df Hcol). split.
  - intros (e & He & Hc). apply list_elem_of_fmap in He as (kv & -> & Hkv).
    rewrite merge_sort_Permutation, groupby_sum_eq in Hkv.
    apply list_elem_of_fmap in Hkv as (k & -> & Hk).
    apply elem_of_group_keys in Hk as (r & Hr & Hkey).
    apply list_elem_of_filter in Hr as [Hexp Hr].
    simpl in Hc. injection Hc as <-. eauto.
  - intros (r & Hr & Hexp & Hcat).
    eexists. split.
    + apply list_elem_of_fmap. eexists. split; [done|].
      rewrite merge_sort_Permutation, groupby_sum_eq.
      apply list_elem_of_fmap. exists c. split; [done|].
      apply elem_of_group_keys. exists r. split; [|done].
      by apply list_elem_of_filter.
    + done.
Qed.

Lemma breakdown_no_sentinel (df : DataFrame) (e : CategoryEntry) :
  e ∈ compute_category_breakdown df →
  ∃ c r, entry_category e = Some c ∧ r ∈ rows df ∧ is_expense r = true
         ∧ category r = Some c.
Proof.
  destruct (has_col df "category") eqn:Hcol.
  - intros He.
    assert (∃ c, entry_category e = Some c) as [c Hc].
    { rewrite (breakdown_entries df Hcol) in He.
      apply list_elem_of_fmap in He as (kv & -> & _). by eexists. }
    destruct (proj1 (breakdown_categories df c Hcol)) as (r & ?); [by eauto|].
    exists c, r. tauto.
  - unfold compute_category_breakdown. rewrite Hcol. simpl.
    by intros ?%elem_of_nil.
Qed.

(** C1, as the claim states it, fails: an expense whose category is absent is
    left out of the breakdown, which is then empty while the stats engine
    reports an expense of 100. *)
Lemma breakdown_drops_uncategorised :
  ∃ st, compute_basic_stats uncategorised_frame = Ok st
    ∧ (total_expense st == 100)%Q
    ∧ compute_category_breakdown uncategorised_frame = []
    ∧ ¬ (sumQ (total_spend <$> compute_category_breakdown uncategorised_frame)
         == total_expense st)%Q.
Proof.
  eexists. split; [apply compute_basic_stats_eq|].
  split; [by vm_compute|]. split; [by vm_compute|].
  by vm_compute.
Qed.

(** C1, amended: for amounts in whole cents, the entries of the breakdown
    partition the expenses that have a category.  Without a category column
    the breakdown is empty.  With one, there is exactly one entry per
    category present among the expenses and no entry for an absent category;
    the entries' totals sum to the total of the categorised expenses, which
    is the total expense of the stats engine when every expense has a
    category. *)
Theorem breakdown_partitions_categorised (df : DataFrame) :
  Forall (λ r, whole_cents (amount r)) (rows df) →
  (has_col df "category" = false → compute_category_breakdown df = [])
  ∧ (has_col df "category" = true →
     (sumQ (total_spend <$> compute_category_breakdown df)
      == categorised_expense_sum df)%Q
     ∧ NoDup (entry_category <$> compute_category_breakdown df)
     ∧ (∀ c, (∃ e, e ∈ compute_category_breakdown df ∧ entry_category e = Some c)
             ↔ (∃ r, r ∈ rows df ∧ is_expense r = true ∧ category r = Some c))
     ∧ (∀ e, e ∈ compute_category_breakdown df → is_Some (entry_category e))
     ∧ (Forall (λ r, is_expense r = true → is_Some (category r)) (rows df) →
        ∃ st, compute_basic_stats df = Ok st
          ∧ (sumQ (total_spend <$> compute_category_breakdown df)
             == total_expense st)%Q)).
Proof.
  intros Hcents. split.
  { intros Hcol. unfold compute_category_breakdown. by rewrite Hcol. }
  intros Hcol.
  assert (sumQ (total_spend <$> compute_category_breakdown df)
          == categorised_expense_sum df)%Q as Hsum.
  { rewrite (breakdown_sum_rounded df Hcol).
    unfold categorised_expense_sum. rewrite <- groupby_sum_total.
    apply sumQ_proper, Forall2_fmap, Forall_Forall2_diag, Forall_forall.
    intros kv Hkv. rewrite groupby_sum_eq in Hkv.
    apply list_elem_of_fmap in Hkv as (k & -> & _). simpl.
    apply py_round_cents. unfold group_total.
    apply whole_cents_amounts, Forall_forall.
    intros r [_ Hr]%list_elem_of_filter.
    by apply (proj1 (Forall_forall _ _) Hcents). }
  split; [done|]. split.
  { rewrite (breakdown_entries df Hcol), <- list_fmap_compose.
    rewrite merge_sort_Permutation, groupby_sum_eq, <- list_fmap_compose.
    apply (NoDup_fmap_2 (λ k : string, Some k)), NoDup_group_keys. }
  split; [intros c; by apply breakdown_categories|].
  split.
  { intros e He. destruct (breakdown_no_sentinel df e He) as (c & _ & -> & _).
    by eexists. }
  intros Hall. eexists. split; [apply compute_basic_stats_eq|]. simpl.
  rewrite Hsum, py_round_cents by by apply whole_cents_amounts.
  unfold categorised_expense_sum, expense_sum.
  rewrite list_filter_filter.
  erewrite filter_ext_in; [done|].
  intros r Hr. split; [tauto|]. intros Hexp. split; [|done].
  by apply (proj1 (Forall_forall _ _) Hall).
Qed.

(** Each entry is rounded on its own: with amounts below a cent the entries
    can add up to less than the rounded total, which is why the partition is
    stated for amounts in whole cents. *)
Lemma breakdown_rounds_each_entry :
  (sumQ (total_spend <$> compute_category_breakdown sub_cent_frame) == 0)%Q
  ∧ ∃ st, compute_basic_stats sub_cent_frame = Ok st
      ∧ (total_expense st == 1 # 100)%Q.
Proof.
  split; [by vm_compute|].
  eexists. split; [apply compute_basic_stats_eq|]. by vm_compute.
Qed.

(** ** Amounts in whole cents *)

Lemma whole_cents_minus (x y : Q) : whole_cents x → whole_cents y → whole_cents (x - y).
Proof.
  intros [a Ha] [b Hb]. exists (a - b)%Z. unfold Z.sub.
  rewrite inject_Z_plus, inject_Z_opp, <- Ha, <- Hb. ring.
Qed.

(** For amounts in whole cents the reported figures are the exact ones, and
    the reported net is the reported income minus the reported expense. *)
Lemma basic_stats_exact (df : DataFrame) :
  Forall (λ r, whole_cents (amount r)) (rows df) →
  ∃ st, compute_basic_stats df = Ok st
    ∧ (total_income st == income_sum df)%Q
    ∧ (total_expense st == expense_sum df)%Q
    ∧ (net st == income_sum df - expense_sum df)%Q
    ∧ (net st == total_income st - total_expense st)%Q.
Proof.
  intros Hcents.
  assert (whole_cents (income_sum df)) as Hinc by by apply whole_cents_amounts.
  assert (whole_cents (expense_sum df)) as Hexp by by apply whole_cents_amounts.
  eexists. split; [apply compute_basic_stats_eq|]. simpl.
  rewrite !py_round_cents by (done || by apply whole_cents_minus).
  repeat split; reflexivity.
Qed.

(** With such amounts, any month that spends more than it earns is flagged
    critical. *)
Lemma cashflow_critical_on_deficit (df : DataFrame) :
  has_col df "description" = true →
  Forall (λ r, whole_cents (amount r)) (rows df) →
  (income_sum df < expense_sum df)%Q →
  ∃ p, detect_patterns df = Ok p ∧ cashflow_flag p = "critical".
Proof.
  intros Hcol Hcents Hdeficit.
  destruct (basic_stats_exact df Hcents) as (st & Hst & _ & _ & Hnet & _).
  destruct (detect_patterns_flag df st Hcol Hst) as (p & Hp & Hflag).
  exists p. split; [done|]. rewrite Hflag. unfold cashflow_of.
  destruct (decide (net st < 0)%Q); [done|]. lra.
Qed.

(** ** Sorting respects equal rationals *)

Section merge_sort_rel.
Context {A : Type} (R : relation A) `{!RelDecision R} (E : relation A).
Hypothesis R_respects : ∀ x x' y y', E x x' → E y y' → R x y ↔ R x' y'.

Lemma list_merge_rel (l1 l1' l2 l2' : list A) :
  Forall2 E l1 l1' → Forall2 E l2 l2' →
  Forall2 E (list_merge R l1 l2) (list_merge R l1' l2').
Proof.
  intros H1. revert l2 l2'.
  induction H1 as [|x x' l1 l1' Hx H1 IH1]; intros l2 l2' H2.
  - destruct H2; simpl; by constructor.
  - induction H2 as [|y y' l2 l2' Hy H2 IH2]; [simpl; by constructor|].
    simpl. destruct (decide (R x y)) as [HR|HR].
    + rewrite decide_True by by apply (R_respects x x' y y').
      constructor; [done|]. apply IH1. by constructor.
    + rewrite decide_False by by rewrite <- (R_respects x x' y y').
      constructor; [done|]. apply IH2.
Qed.

Lemma merge_list_to_stack_rel (st st' : list (option (list A))) (l l' : list A) :
  Forall2 (option_Forall2 (Forall2 E)) st st' → Forall2 E l l' →
  Forall2 (option_Forall2 (Forall2 E))
    (merge_list_to_stack R st l) (merge_list_to_stack R st' l').
Proof.
  intros Hst. revert l l'.
  induction Hst as [|o o' st st' Ho Hst IH]; intros l l' Hl; simpl.
  - repeat constructor. done.
  - destruct Ho as [l0 l0' Hl0|]; simpl.
    + constructor; [constructor|]. apply IH. by apply list_merge_rel.
    + constructor; [by constructor|done].
Qed.

Lemma merge_stack_rel (st st' : list (option (list A))) :
  Forall2 (option_Forall2 (Forall2 E)) st st' →
  Forall2 E (merge_stack R st) (merge_stack R st').
Proof.
  induction 1 as [|o o' st st' Ho Hst IH]; simpl; [constructor|].
  destruct Ho; [by apply list_merge_rel|done].
Qed.

Lemma merge_sort_aux_rel (st st' : list (option (list A))) (l l' : list A) :
  Forall2 (option_Forall2 (Forall2 E)) st st' → Forall2 E l l' →
  Forall2 E (merge_sort_aux R st l) (merge_sort_aux R st' l').
Proof.
  intros Hst Hl. revert st st' Hst.
  induction Hl as [|x x' l l' Hx Hl IH]; intros st st' Hst; simpl.
  - by apply merge_stack_rel.
  - apply IH, merge_list_to_stack_rel; [done|]. by repeat constructor.
Qed.

Lemma merge_sort_rel (l l' : list A) :
  Forall2 E l l' → Forall2 E (merge_sort R l) (merge_sort R l').
Proof. intros Hl. apply merge_sort_aux_rel; [constructor|done]. Qed.
End merge_sort_rel.

Lemma nth_Forall2_Qeq (l l' : list Q) (i : nat) :
  Forall2 Qeq l l' → (nth i l 0 == nth i l' 0)%Q.
Proof.
  intros H. revert i. induction H as [|x y l l' Hxy _ IH]; intros [|i]; simpl;
    done || apply IH.
Qed.

Global Instance median_proper : Proper (Forall2 Qeq ==> Qeq) median.
Proof.
  intros l l' Hl. unfold median.
  assert (Forall2 Qeq (merge_sort Qle l) (merge_sort Qle l')) as Hs.
  { apply merge_sort_rel; [|done]. intros x x' y y' Hx Hy. by rewrite Hx, Hy. }
  rewrite (Forall2_length _ _ _ Hs).
  destruct (Nat.even _).
  - by rewrite !(nth_Forall2_Qeq _ _ _ Hs).
  - apply (nth_Forall2_Qeq _ _ _ Hs).
Qed.

Lemma nth_nonneg (l : list Q) (i : nat) :
  Forall (Qle 0) l → (0 <= nth i l 0)%Q.
Proof.
  intros H. revert i. induction H as [|x l Hx _ IH]; intros [|i]; simpl;
    try done; try apply IH; lra.
Qed.

Lemma median_nonneg (l : list Q) : Forall (Qle 0) l → (0 <= median l)%Q.
Proof.
  intros Hl. unfold median.
  assert (Forall (Qle 0) (merge_sort Qle l)) as Hs
    by by rewrite merge_sort_Permutation.
  destruct (Nat.even _).
  - pose proof (nth_nonneg _ (length (merge_sort Qle l) / 2 - 1) Hs).
    pose proof (nth_nonneg _ (length (merge_sort Qle l) / 2) Hs).
    apply Qle_shift_div_l; lra.
  - by apply nth_nonneg.
Qed.

(** ** Impulse spikes *)

Global Instance date_le_total : Total date_le.
Proof. intros [[y1 m1] d1] [[y2 m2] d2]. unfold date_le. simpl. lia. Qed.

Global Instance date_le_trans : Transitive date_le.
Proof.
  intros [[y1 m1] d1] [[y2 m2] d2] [[y3 m3] d3]. unfold date_le. simpl. lia.
Qed.

Global Instance date_le_antisymm : AntiSymm (=) date_le.
Proof.
  intros [[y1 m1] d1] [[y2 m2] d2]. unfold date_le. simpl.
  intros H1 H2. repeat f_equal; lia.
Qed.

Lemma StronglySorted_filter {A : Type} (R : relation A) (P : A → Prop)
    `{∀ x, Decision (P x)} (l : list A) :
  StronglySorted R l → StronglySorted R (filter P l).
Proof.
  induction 1 as [|x l _ IH Hx]; [constructor|].
  rewrite filter_cons. destruct (decide (P x)); [|done].
  constructor; [done|].
  apply Forall_forall. intros y [_ Hy]%list_elem_of_filter.
  by apply (proj1 (Forall_forall _ _) Hx).
Qed.

Lemma filter_paired {A : Type} (f : A → Q) (P : Q → Prop)
    `{∀ q, Decision (P q)} (l : list A) :
  filter (λ kv : A * Q, P kv.2) ((λ d, (d, f d)) <$> l)
  = (λ d, (d, f d)) <$> filter (λ d, P (f d)) l.
Proof.
  induction l as [|x l IH]; [done|].
  rewrite fmap_cons, !filter_cons. simpl.
  destruct (decide (P (f x))); by rewrite IH.
Qed.

Lemma filter_filter_and {A : Type} (P R : A → Prop) `{∀ x, Decision (P x)}
    `{∀ x, Decision (R x)} (l : list A) :
  filter P (filter R l) = filter (λ x, R x ∧ P x) l.
Proof.
  induction l as [|x l IH]; [done|]. rewrite !filter_cons.
  destruct (decide (R x)) as [HR|HR].
  - rewrite filter_cons. destruct (decide (P x)) as [HP|HP].
    + rewrite decide_True by done. by rewrite IH.
    + rewrite decide_False by tauto. done.
  - rewrite decide_False by tauto. done.
Qed.

Lemma daily_totals_eq (df : DataFrame) :
  daily_totals df = (λ d, (d, day_total df d)) <$> expense_days df.
Proof.
  unfold daily_totals, groupby_fsum, expense_days, day_total.
  apply list_fmap_ext. intros _ d _. simpl. do 3 f_equal.
  rewrite filter_filter_and. apply filter_ext_in. intros r _. split.
  - by intros [? [= ?]].
  - intros [? ->]. done.
Qed.

Lemma daily_values (df : DataFrame) :
  (daily_totals df).*2 = day_total df <$> expense_days df.
Proof. by rewrite daily_totals_eq, <- list_fmap_compose. Qed.

Lemma expense_days_sorted (df : DataFrame) :
  StronglySorted date_le (expense_days df).
Proof. apply StronglySorted_merge_sort; apply _. Qed.

Lemma elem_of_expense_days (df : DataFrame) (d : date) :
  d ∈ expense_days df
  ↔ ∃ r, r ∈ rows df ∧ is_expense r = true ∧ date_of (timestamp r) = d.
Proof.
  unfold expense_days. rewrite elem_of_group_keys. split.
  - intros (r & [Hexp Hr]%list_elem_of_filter & [= Hd]). eauto.
  - intros (r & Hr & Hexp & Hd). exists r. rewrite list_elem_of_filter, Hd. done.
Qed.

Lemma sumQ_nonneg (l : list Q) : Forall (Qle 0) l → (0 <= sumQ l)%Q.
Proof. induction 1 as [|x l Hx _ IH]; simpl; lra. Qed.

Lemma day_total_nonneg (df : DataFrame) (d : date) :
  Forall (λ r, is_expense r = true → (0 <= amount r)%Q) (rows df) →
  (0 <= day_total df d)%Q.
Proof.
  intros Hpos. apply fl_nonneg, sumQ_nonneg, Forall_fmap, Forall_forall.
  intros r [[Hexp _] Hr]%list_elem_of_filter.
  apply fl_nonneg. by apply (proj1 (Forall_forall _ _) Hpos).
Qed.

Lemma median_daily_nonneg (df : DataFrame) :
  Forall (λ r, is_expense r = true → (0 <= amount r)%Q) (rows df) →
  (0 <= median_daily df)%Q.
Proof.
  intros Hpos. unfold median_daily. apply fl_nonneg, median_nonneg.
  apply Forall_fmap, Forall_forall.
  intros d _. by apply day_total_nonneg.
Qed.

(** The grouping by day: one entry per day with an expense, holding the total
    of that day. *)
Lemma elem_of_daily_totals (df : DataFrame) (d : date) (t : Q) :
  (d, t) ∈ daily_totals df
  ↔ (∃ r, r ∈ rows df ∧ is_expense r = true ∧ date_of (timestamp r) = d)
    ∧ t = day_total df d.
Proof.
  rewrite daily_totals_eq, list_elem_of_fmap, <- elem_of_expense_days. split.
  - by intros (d' & [= -> ->] & Hd).
  - intros [Hd ->]. by exists d.
Qed.

Lemma daily_totals_days (df : DataFrame) : (daily_totals df).*1 = expense_days df.
Proof. by rewrite daily_totals_eq, <- list_fmap_compose, list_fmap_id. Qed.

Lemma paired_fst {A : Type} (f : A → Q) (l : list A) :
  ((λ d, (d, f d)) <$> l).*1 = l.
Proof.
  induction l as [|d l IH]; [reflexivity|].
  rewrite !fmap_cons. cbn [fst]. by f_equal.
Qed.

Lemma paired_extra {A : Type} (f : A → Q) (m : Q) (l : list A) :
  fsum ((λ kv : A * Q, fsub kv.2 m) <$> ((λ d, (d, f d)) <$> l))
  = fsum ((λ d, fsub (f d) m) <$> l).
Proof.
  f_equal. induction l as [|d l IH]; [reflexivity|].
  rewrite !fmap_cons. cbn [snd]. by f_equal.
Qed.

(** The impulse block computes the spike days of the specification. *)
Lemma impulse_block_eq (df : DataFrame) :
  impulse_block df
  = (str_date <$> spike_days df,
     fsum ((λ d, fsub (day_total df d) (median_daily df)) <$> spike_days df)).
Proof.
  assert (fsum [] = 0%Q) as Hempty by (by vm_compute).
  assert (expense_days df = [] → ¬ (0 < median_daily df)%Q) as Hnil.
  { intros Hnil. unfold median_daily. rewrite Hnil. by vm_compute. }
  unfold impulse_block, spike_days.
  case_bool_decide as Hexp.
  { destruct (decide (0 < median_daily df)%Q) as [Hm|]; [|rewrite !fmap_nil, Hempty; reflexivity].
    destruct Hnil; [|done]. unfold expense_days. by rewrite Hexp. }
  case_bool_decide as Hlen.
  - rewrite daily_values.
    change (fl (median (day_total df <$> expense_days df))) with (median_daily df).
    destruct (decide (0 < median_daily df)%Q); [|rewrite !fmap_nil, Hempty; reflexivity].
    rewrite daily_totals_eq.
    rewrite (filter_paired (day_total df)
               (λ q, (fmul (3 # 2) (median_daily df) < q)%Q)).
    rewrite paired_fst, paired_extra. reflexivity.
  - destruct (decide (0 < 0)%Q) as [?|_]; [lra|].
    destruct (decide (0 < median_daily df)%Q) as [Hm|]; [|rewrite !fmap_nil, Hempty; reflexivity].
    destruct Hnil; [|done].
    rewrite daily_totals_eq, length_fmap in Hlen.
    destruct (expense_days df); [done|simpl in Hlen; lia].
Qed.

Lemma detect_patterns_spikes (df : DataFrame) :
  has_col df "description" = true →
  ∃ p, detect_patterns df = Ok p
    ∧ days (impulse_spikes p) = str_date <$> spike_days df
    ∧ extra_spend (impulse_spikes p)
      = py_round (fsum ((λ d, fsub (day_total df d) (median_daily df))
                          <$> spike_days df)) 2.
Proof.
  intros Hcol. unfold detect_patterns. rewrite Hcol, impulse_block_eq.
  rewrite compute_basic_stats_eq. cbn [negb mbind result_bind].
  eexists. split; [reflexivity|]. done.
Qed.



(** ** Category trends *)

Lemma traverse_ok {A B : Type} (f : A → result B) (g : A → B) (l : list A) :
  (∀ x, x ∈ l → f x = Ok (g x)) → traverse f l = Ok (g <$> l).
Proof.
  induction l as [|x l IH]; intros Hf; [done|].
  simpl. rewrite (Hf x) by left. simpl.
  rewrite IH by (intros y Hy; apply Hf; by right). done.
Qed.

Lemma fdiv_pos (a b : Q) : (0 < b)%Q → fdiv a b = Ok (fl (a / b)).
Proof.
  intros Hb. unfold fdiv. destruct (Qeq_bool b 0) eqn:E; [|done].
  apply Qeq_bool_iff in E. lra.
Qed.

Lemma trend_row_eq (cur_by_cat baseline_by : list (string * Q)) (cat : string) :
  trend_row cur_by_cat baseline_by cat
  = Ok (trend_of (series_get cat cur_by_cat) (series_get cat baseline_by) cat).
Proof.
  unfold trend_row, trend_of, fsub.
  destruct (decide (0 < series_get cat baseline_by)%Q) as [Hpos|]; simpl; [|done].
  by rewrite (fdiv_pos _ _ Hpos).
Qed.

Lemma filter_keys {K : Type} (f : K → Q) (P : K → Prop) `{∀ k, Decision (P k)}
    (ks : list K) :
  filter (λ kv : K * Q, P kv.1) ((λ k, (k, f k)) <$> ks)
  = (λ k, (k, f k)) <$> filter P ks.
Proof.
  induction ks as [|k ks IH]; [done|].
  rewrite fmap_cons, !filter_cons. simpl.
  destruct (decide (P k)); by rewrite IH.
Qed.

Lemma series_get_mapped (g : Q → Q) (s : list (string * Q)) (k : string) :
  (g 0 == 0)%Q →
  (series_get k ((λ kv, (kv.1, g kv.2)) <$> s) == g (series_get k s))%Q.
Proof.
  intros Hg. unfold series_get. rewrite list_find_fmap.
  change (list_find (_ ∘ _) s) with (list_find (λ kv : string * Q, kv.1 = k) s).
  destruct (list_find _ s) as [[i kv]|]; simpl; [reflexivity|]. by rewrite Hg.
Qed.

Lemma cur_rows_elem (df : DataFrame) (cp : string) (r : Row) :
  r ∈ cur_rows df cp ↔ r ∈ rows df ∧ is_expense r = true ∧ period r = cp.
Proof. unfold cur_rows. rewrite !list_elem_of_filter. tauto. Qed.

Lemma base_rows_elem (df : DataFrame) (cp : string) (r : Row) :
  r ∈ base_rows df cp ↔ r ∈ rows df ∧ is_expense r = true ∧ period r ≠ cp.
Proof. unfold base_rows. rewrite !list_elem_of_filter. tauto. Qed.

Lemma list_empty_iff {A : Type} (l : list A) : l = [] ↔ ¬ ∃ x, x ∈ l.
Proof.
  destruct l as [|x l]; split; try done.
  - by intros _ [? ?%elem_of_nil].
  - intros H. destruct H. exists x. by left.
Qed.

Lemma cur_by_cat_get (df : DataFrame) (cp cat : string) :
  series_get cat (groupby_fsum String.le category famount (cur_rows df cp))
  = current_spend df cp cat.
Proof.
  rewrite series_get_groupby_fsum.
  unfold current_spend, period_spend, cur_rows. do 2 f_equal.
  rewrite !filter_filter_and. apply filter_ext_in. intros r _. tauto.
Qed.

Lemma sumQ_zero (l : list Q) : Forall (λ x, x == 0)%Q l → (sumQ l == 0)%Q.
Proof. induction 1 as [|x l Hx _ IH]; simpl; [reflexivity|]. rewrite Hx, IH. ring. Qed.

(** Terms that are zero may be added to a sum. *)
Lemma sumQ_zero_outside (f : string → Q) (l1 l2 : list string) :
  NoDup l1 → NoDup l2 → (∀ x, x ∈ l1 → x ∈ l2) →
  (∀ x, x ∈ l2 → x ∉ l1 → (f x == 0)%Q) →
  (sumQ (f <$> l1) == sumQ (f <$> l2))%Q.
Proof.
  intros H1 H2 Hsub Hzero.
  assert (l2 ≡ₚ l1 ++ filter (λ x, ¬ x ∈ l1) l2) as Hperm.
  { rewrite <- (filter_app_complement (λ x, x ∈ l1) l2) at 1.
    apply Permutation_app; [|done].
    apply NoDup_Permutation; [by apply NoDup_filter|done|].
    intros x. rewrite list_elem_of_filter. split; [tauto|]. auto. }
  rewrite (sumQ_perm (f <$> l2) (f <$> (l1 ++ filter (λ x, ¬ x ∈ l1) l2)))
    by by rewrite <- Hperm.
  rewrite fmap_app, sumQ_app.
  rewrite (sumQ_zero (f <$> filter _ l2)); [ring|].
  apply Forall_fmap, Forall_forall. intros x [Hx Hin]%list_elem_of_filter.
  by apply Hzero.
Qed.

(** The number of baseline periods that the code counts. *)
Lemma base_months_size (df : DataFrame) (cp : string) :
  base_months (base_rows df cp) = size (baseline_periods df cp).
Proof.
  unfold base_months, baseline_periods, base_rows.
  rewrite filter_filter_and.
  rewrite <- (size_list_to_set (C:=gset string) (remove_dups _))
    by apply NoDup_remove_dups.
  f_equal. apply set_eq. intros p.
  rewrite !elem_of_list_to_set, elem_of_remove_dups. done.
Qed.

Lemma baseline_periods_elem (df : DataFrame) (cp p : string) :
  p ∈ elements (baseline_periods df cp)
  ↔ ∃ r, r ∈ rows df ∧ is_expense r = true ∧ period r ≠ cp ∧ period r = p.
Proof.
  unfold baseline_periods.
  rewrite elem_of_elements, elem_of_list_to_set, list_elem_of_fmap. split.
  - intros (r & -> & [[? ?] ?]%list_elem_of_filter). eauto.
  - intros (r & Hr & Hexp & Hp & <-). exists r. by rewrite list_elem_of_filter.
Qed.

(** The two nested group-bys of the baseline add up, for a category, its
    spend in each of the baseline periods. *)
Lemma baseline_groups_total (df : DataFrame) (cp cat : string) :
  series_get cat
    (groupby_fsum String.le (λ kv : string * string * Q, Some kv.1.2) snd
       (groupby_fsum pair_le (λ r, c ← category r; Some (period r, c)) famount
          (base_rows df cp)))
  = fsum ((λ p, period_spend df p cat) <$> elements (baseline_periods df cp)).
Proof.
  rewrite series_get_groupby_fsum. unfold fsum. apply fl_comp.
  set (key := λ r : Row, c ← category r; Some (period r, c)).
  set (keys := group_keys pair_le key (base_rows df cp)).
  set (F := λ k : string * string,
              fsum (famount <$> filter (λ r, key r = Some k) (base_rows df cp))).
  assert (groupby_fsum pair_le key famount (base_rows df cp)
          = (λ k, (k, F k)) <$> keys) as -> by done.
  rewrite (filter_ext_in _ (λ kv : string * string * Q, kv.1.2 = cat))
    by (intros kv _; split; [by intros [= ?]|by intros ->]).
  pose proof (filter_keys F (λ k : string * string, k.2 = cat) keys) as Hkeys.
  simpl in Hkeys. rewrite Hkeys. clear Hkeys.
  set (K1 := filter (λ k : string * string, k.2 = cat) keys).
  assert (∀ k, k ∈ K1 →
            k.2 = cat ∧ ∃ r, r ∈ rows df ∧ is_expense r = true ∧ period r ≠ cp
                             ∧ period r = k.1 ∧ category r = Some cat) as HK1.
  { intros k [Hcat Hk]%list_elem_of_filter. split; [done|].
    apply elem_of_group_keys in Hk as (r & Hr & Hkey).
    apply base_rows_elem in Hr as (Hr & Hexp & Hp). exists r.
    unfold key in Hkey. destruct (category r) as [c|]; simplify_eq/=. done. }
  assert (snd <$> ((λ k, (k, F k)) <$> K1)
          = (λ p, period_spend df p cat) <$> K1.*1) as ->.
  { rewrite <- !list_fmap_compose. apply list_fmap_ext. intros i k Hk. simpl.
    apply list_elem_of_lookup_2 in Hk. clear i. destruct (HK1 k Hk) as [Hcat (r0 & _ & _ & Hp0 & Hk1 & _)].
    unfold F, period_spend, base_rows. do 2 f_equal.
    rewrite !filter_filter_and. apply filter_ext_in. intros r _.
    destruct k as [p c]. simpl in *. subst c. unfold key. split.
    - intros (Hexp & Hne & Hkey). destruct (category r) as [c|]; simplify_eq/=. done.
    - intros (Hexp & Hp & Hc). rewrite Hc. simpl.
      split; [done|]. split; congruence. }
  apply sumQ_zero_outside.
  - apply NoDup_fmap_2_strong; [|apply NoDup_filter, NoDup_group_keys].
    intros [p1 c1] [p2 c2] H1 H2 Hp. simpl in Hp.
    destruct (HK1 _ H1) as [Hc1 _]. destruct (HK1 _ H2) as [Hc2 _].
    simpl in *. congruence.
  - apply NoDup_elements.
  - intros p (k & -> & Hk)%list_elem_of_fmap.
    destruct (HK1 k Hk) as [_ (r & Hr & Hexp & Hp & Hk1 & _)].
    apply baseline_periods_elem. eauto.
  - intros p Hp Hnot. unfold period_spend. rewrite filter_none; [by vm_compute|].
    intros r Hr (Hexp & Hper & Hc). apply Hnot.
    apply baseline_periods_elem in Hp as (r' & _ & _ & Hne & Hp').
    apply list_elem_of_fmap. exists (p, cat). split; [done|].
    apply list_elem_of_filter. split; [done|].
    apply elem_of_group_keys. exists r. split.
    + apply base_rows_elem. split; [done|]. split; [done|]. congruence.
    + unfold key. rewrite Hc. simpl. by rewrite Hper.
Qed.

Lemma baseline_by_cat_get (df : DataFrame) (cp cat : string) :
  (series_get cat (baseline_by_cat (base_rows df cp)) == baseline_spend df cp cat)%Q.
Proof.
  unfold baseline_by_cat, baseline_spend.
  rewrite (series_get_mapped
             (λ q, fl (q / inject_Z (Z.of_nat (base_months (base_rows df cp)))))).
  - by rewrite baseline_groups_total, base_months_size.
  - rewrite (fl_comp _ 0) by (unfold Qdiv; ring). apply fl_0.
Qed.

Lemma base_months_pos (base : list Row) : base ≠ [] → (0 < base_months base)%nat.
Proof.
  destruct base as [|r base]; [done|]. intros _. unfold base_months.
  assert (period r ∈ remove_dups (period <$> r :: base)) as Hin.
  { apply elem_of_remove_dups. left. }
  destruct (remove_dups _); [by apply elem_of_nil in Hin|simpl; lia].
Qed.

(** The two outcomes of the comparator on a frame with a category column. *)
Lemma compute_category_trends_cases (df : DataFrame) (cp : string) :
  has_col df "category" = true →
  (compute_category_trends df cp = Ok []
   ∧ (has_col df "period" = false ∨ cur_rows df cp = [] ∨ base_rows df cp = []))
  ∨ (has_col df "period" = true ∧ cur_rows df cp ≠ [] ∧ base_rows df cp ≠ []
     ∧ ∃ cats : gset string,
         (∀ cat, cat ∈ cats ↔
            ∃ r, r ∈ rows df ∧ is_expense r = true ∧ category r = Some cat)
         ∧ compute_category_trends df cp
           = Ok (merge_sort movers_first
                   ((λ cat,
                       trend_of
                         (series_get cat
                            (groupby_fsum String.le category famount
                               (cur_rows df cp)))
                         (series_get cat (baseline_by_cat (base_rows df cp))) cat)
                    <$> elements cats))).
Proof.
  intros Hcat. unfold compute_category_trends.
  destruct (has_col df "period") eqn:Hper; simpl; [|left; auto].
  fold (cur_rows df cp) (base_rows df cp).
  case_bool_decide as Hcur; simpl; [left; auto|].
  case_bool_decide as Hbase; simpl; [left; auto|].
  rewrite Hcat. simpl.
  case_bool_decide as Hm.
  { pose proof (base_months_pos _ Hbase). lia. }
  right. do 3 (split; [done|]).
  eexists. split; [|by rewrite (traverse_ok _ _ _ (λ x _, trend_row_eq _ _ x))].
  intros cat. rewrite elem_of_union, !elem_of_list_to_set.
  unfold baseline_by_cat, groupby_fsum. rewrite <- !list_fmap_compose.
  rewrite !list_elem_of_fmap. split.
  - intros [(k & -> & Hk)|(k & -> & Hk)]; simpl.
    + apply elem_of_group_keys in Hk as (r & Hr & Hk).
      apply cur_rows_elem in Hr as (Hr & Hexp & _). eauto.
    + apply elem_of_group_keys in Hk as ([k' q] & Hkq & [= <-]).
      apply list_elem_of_fmap in Hkq as (k'' & [= -> ->] & Hk'').
      apply elem_of_group_keys in Hk'' as (r & Hr & Hk'').
      apply base_rows_elem in Hr as (Hr & Hexp & _).
      destruct (category r) as [c|] eqn:Hc; simplify_eq/=. eauto.
  - intros (r & Hr & Hexp & Hc).
    destruct (decide (period r = cp)) as [Hp|Hp].
    + left. exists cat. split; [done|]. apply elem_of_group_keys.
      exists r. split; [|done]. by apply cur_rows_elem.
    + right. exists cat. split; [done|]. apply elem_of_group_keys.
      eexists (period r, cat, _). split; [|done].
      apply list_elem_of_fmap. exists (period r, cat). split; [done|].
      apply elem_of_group_keys. exists r. rewrite Hc. split; [|done].
      by apply base_rows_elem.
Qed.



(** ** The assignment of persona labels *)

Lemma max_from_elem {A : Type} (key : A → Q) (best : A) (l : list A) :
  max_from key best l ∈ best :: l.
Proof.
  revert best. induction l as [|x l IH]; intros best; simpl; [left|].
  destruct (decide (key best < key x)%Q).
  - right. apply IH.
  - specialize (IH best). apply elem_of_cons in IH as [->|?];
      [left|right; by right].
Qed.

Lemma py_max_elem {A : Type} (key : A → Q) (l : list A) (c : A) :
  py_max key l = Some c → c ∈ l.
Proof. destruct l as [|x l]; [done|]. intros [= <-]. apply max_from_elem. Qed.

Lemma py_max_is_Some {A : Type} (key : A → Q) (l : list A) :
  l ≠ [] → is_Some (py_max key l).
Proof. destruct l; [done|]. by eexists. Qed.

Lemma set_fold_insert_const (v : string) (labels : gmap nat string)
    (X : gset nat) (c : nat) :
  set_fold (λ cid m, <[cid := v]> m) labels X !! c
  = if decide (c ∈ X) then Some v else labels !! c.
Proof.
  revert c.
  pose (P := λ (m : gmap nat string) (Y : gset nat),
               ∀ c, m !! c = if decide (c ∈ Y) then Some v else labels !! c).
  apply (set_fold_ind_L P); unfold P; clear P.
  - intros c. by rewrite decide_False by set_solver.
  - intros x Y m Hx IH c. destruct (decide (c = x)) as [->|Hne].
    + rewrite lookup_insert_eq. by rewrite decide_True by set_solver.
    + rewrite lookup_insert_ne by done. rewrite IH.
      destruct (decide (c ∈ Y)).
      * by rewrite decide_True by set_solver.
      * by rewrite decide_False by set_solver.
Qed.

Section assignment.
Variable info : list ClusterInfo.

Lemma assign_inv_insert (used : list string) (n : nat) (label : string)
    (labels : gmap nat string) (remaining : gset nat) (c : nat) :
  assign_inv info used n (labels, remaining) →
  label ∉ used → c ∈ remaining →
  assign_inv info (label :: used) (S n)
    (<[c := label]> labels, remaining ∖ {[c]}).
Proof.
  intros (Hdisj & Hunion & Hinj & Hused & Hsize) Hfresh Hc. simpl in *.
  repeat split; simpl.
  - rewrite dom_insert_L. set_solver.
  - rewrite dom_insert_L, <- Hunion.
    rewrite (union_difference_L {[c]} remaining) at 2 by set_solver.
    set_solver.
  - intros c1 c2 l H1 H2.
    destruct (decide (c1 = c)) as [->|Hne1], (decide (c2 = c)) as [->|Hne2];
      try done.
    + rewrite lookup_insert_eq in H1. rewrite lookup_insert_ne in H2 by done.
      simplify_eq. destruct Hfresh. eauto.
    + rewrite lookup_insert_eq in H2. rewrite lookup_insert_ne in H1 by done.
      simplify_eq. destruct Hfresh. eauto.
    + rewrite lookup_insert_ne in H1, H2 by done. eauto.
  - intros c' l. destruct (decide (c' = c)) as [->|Hne].
    + rewrite lookup_insert_eq. intros [= <-]. left.
    + rewrite lookup_insert_ne by done. intros ?. right. eauto.
  - rewrite size_difference by set_solver. rewrite size_singleton.
    assert (size remaining ≠ 0).
    { apply size_non_empty_iff. set_solver. }
    lia.
Qed.

Lemma assign_next_inv (used : list string) (n : nat) (key : ClusterInfo → Q)
    (label : string) (st : gmap nat string * gset nat) :
  assign_inv info used n st → label ∉ used →
  assign_inv info (label :: used) (S n) (assign_next info key label st).
Proof.
  destruct st as [labels remaining]. intros Hinv Hfresh.
  unfold assign_next. case_bool_decide as Hempty.
  { destruct Hinv as (? & ? & ? & Hused & ?). simpl in *. subst remaining.
    repeat split; simpl; try done.
    - intros c l ?. right. eauto.
    - apply Nat.le_0_l. }
  assert (filter (λ c, cluster c ∈ remaining) info ≠ []) as Hne.
  { apply set_choose_L in Hempty as [c Hc].
    assert (c ∈ (list_to_set (cluster <$> info) : gset nat)) as Hin.
    { destruct Hinv as (_ & <- & _). simpl. set_solver. }
    apply elem_of_list_to_set, list_elem_of_fmap in Hin as (ci & -> & Hci).
    intros Hnil.
    assert (ci ∈ filter (λ c, cluster c ∈ remaining) info) as Hf
      by by apply list_elem_of_filter.
    rewrite Hnil in Hf. by apply elem_of_nil in Hf. }
  destruct (py_max_is_Some key _ Hne) as [c Hmax]. rewrite Hmax.
  apply py_max_elem, list_elem_of_filter in Hmax as [Hc _].
  by apply assign_inv_insert.
Qed.

(** The state after the three selectors. *)
Lemma assign_cluster_labels_inv :
  info ≠ [] →
  ∃ st, assign_inv info [LifestyleSpender; SubscriptionHeavy; SuperSaver] 3 st
    ∧ assign_cluster_labels info
      = Ok (set_fold (λ cid labels, <[cid := Balanced]> labels) st.1 st.2).
Proof.
  intros Hne. unfold assign_cluster_labels.
  destruct (py_max_is_Some mean_savings info Hne) as [saver Hmax].
  rewrite Hmax. apply py_max_elem in Hmax.
  eexists. split; [|done].
  apply assign_next_inv; [|by apply (bool_decide_unpack _); vm_compute].
  apply assign_next_inv; [|by apply (bool_decide_unpack _); vm_compute].
  assert (cluster saver ∈ (list_to_set (cluster <$> info) : gset nat)) as Hin.
  { apply elem_of_list_to_set, list_elem_of_fmap. eauto. }
  repeat split; simpl.
  - rewrite dom_insert_L, dom_empty_L. set_solver.
  - rewrite dom_insert_L, dom_empty_L.
    rewrite (union_difference_L {[cluster saver]} (list_to_set (cluster <$> info)))
      at 2 by set_solver.
    set_solver.
  - intros c1 c2 l H1 H2.
    apply lookup_insert_Some in H1 as [[<- _]|[_ H1]]; [|done].
    apply lookup_insert_Some in H2 as [[<- _]|[_ H2]]; done.
  - intros c l H1.
    apply lookup_insert_Some in H1 as [[_ <-]|[_ H1]]; [left|done].
  - rewrite size_difference by set_solver. rewrite size_singleton. lia.
Qed.
End assignment.

Lemma size_le_1_eq (X : gset nat) (x y : nat) :
  (size X ≤ 1)%nat → x ∈ X → y ∈ X → x = y.
Proof.
  intros Hsize Hx Hy.
  assert (size X ≠ 0) by (apply size_non_empty_iff; set_solver).
  apply (size_singleton_inv X); [lia|done..].
Qed.

(** What the invariant gives for the final labelling. *)
Lemma final_labels_spec (info : list ClusterInfo) (st : gmap nat string * gset nat) :
  assign_inv info [LifestyleSpender; SubscriptionHeavy; SuperSaver] 3 st →
  let ids : gset nat := list_to_set (cluster <$> info) in
  let labels := set_fold (λ cid labels, <[cid := Balanced]> labels) st.1 st.2 in
  (∀ c, c ∈ ids ↔ is_Some (labels !! c))
  ∧ (∀ c l, labels !! c = Some l →
            l ∈ [SuperSaver; SubscriptionHeavy; LifestyleSpender; Balanced])
  ∧ ((size ids ≤ 4)%nat →
     ∀ c1 c2 l, labels !! c1 = Some l → labels !! c2 = Some l → c1 = c2)
  ∧ ((size ids ≤ 3)%nat →
     ∀ c l, labels !! c = Some l →
            l ∈ [SuperSaver; SubscriptionHeavy; LifestyleSpender]).
Proof.
  destruct st as [labels0 remaining].
  intros (Hdisj & Hunion & Hinj & Hused & Hsize) ids labels. simpl in *.
  assert (∀ c, labels !! c
               = if decide (c ∈ remaining) then Some Balanced else labels0 !! c)
    as Hlookup by apply set_fold_insert_const.
  assert (∀ c l, labels0 !! c = Some l → l ≠ Balanced) as Hnb.
  { intros c l Hl ->. apply Hused in Hl. revert Hl.
    by apply (bool_decide_unpack _); vm_compute. }
  split; [|split; [|split]].
  - intros c. rewrite Hlookup. unfold ids. rewrite <- Hunion.
    destruct (decide (c ∈ remaining)) as [Hc|Hc].
    + split; [by eauto|set_solver].
    + rewrite <- elem_of_dom. set_solver.
  - intros c l. rewrite Hlookup. destruct (decide (c ∈ remaining)).
    + intros [= <-]. set_solver.
    + intros Hl%Hused. set_solver.
  - intros Hids c1 c2 l. rewrite !Hlookup.
    assert (size remaining ≤ 1)%nat by (unfold ids in Hids; lia).
    destruct (decide (c1 ∈ remaining)), (decide (c2 ∈ remaining)).
    + intros _ _. by apply (size_le_1_eq remaining).
    + intros [= <-] Hl. by destruct (Hnb _ _ Hl).
    + intros Hl [= <-]. by destruct (Hnb _ _ Hl).
    + apply Hinj.
  - intros Hids c l. rewrite Hlookup.
    assert (remaining = ∅) as ->.
    { apply leibniz_equiv, size_empty_iff. unfold ids in Hids. lia. }
    rewrite decide_False by set_solver.
    intros Hl%Hused. set_solver.
Qed.

Lemma cluster_ids_eq (mc : list (MonthRow * nat)) :
  cluster <$> cluster_info_of mc = group_keys Nat.le (λ x, Some x.2) mc.
Proof. unfold cluster_info_of. by rewrite <- list_fmap_compose, list_fmap_id. Qed.

Lemma elem_of_cluster_ids (mc : list (MonthRow * nat)) (c : nat) :
  c ∈ (list_to_set (cluster <$> cluster_info_of mc) : gset nat) ↔ c ∈ mc.*2.
Proof.
  rewrite elem_of_list_to_set, cluster_ids_eq, elem_of_group_keys.
  rewrite list_elem_of_fmap. split.
  - intros (x & Hx & [= <-]). eauto.
  - intros (x & -> & Hx). eauto.
Qed.

Lemma size_cluster_ids (mc : list (MonthRow * nat)) (k : nat) :
  Forall (λ c, c < k)%nat mc.*2 →
  (size (list_to_set (cluster <$> cluster_info_of mc) : gset nat) ≤ k)%nat.
Proof.
  intros Hk. rewrite <- (size_set_seq (C:=gset nat) 0 k).
  apply subseteq_size. intros c Hc%elem_of_cluster_ids.
  apply elem_of_set_seq. split; [lia|].
  by apply (proj1 (Forall_forall _ _) Hk).
Qed.

Lemma cluster_info_nonempty (mc : list (MonthRow * nat)) :
  mc ≠ [] → cluster_info_of mc ≠ [].
Proof.
  destruct mc as [|x mc]; [done|]. intros _ Hnil.
  assert (x.2 ∈ (list_to_set (cluster <$> cluster_info_of (x :: mc)) : gset nat))
    as Hin by (apply elem_of_cluster_ids; left).
  rewrite Hnil in Hin. set_solver.
Qed.

(** The lookups of the map built by the loop over [monthly_df]. *)
Lemma period_labels_lookup (labels : gmap nat string) (mc : list (MonthRow * nat))
    (acc : gmap string string) (p l : string) :
  foldl (λ acc x, <[mr_period x.1 := default Balanced (labels !! x.2)]> acc)
        acc mc !! p = Some l →
  acc !! p = Some l
  ∨ ∃ x, x ∈ mc ∧ mr_period x.1 = p ∧ l = default Balanced (labels !! x.2).
Proof.
  revert acc. induction mc as [|x mc IH]; intros acc; simpl; [by left|].
  intros [Hacc|(y & Hy & ? & ?)]%IH.
  - apply lookup_insert_Some in Hacc as [[<- <-]|[_ Hacc]]; [|by left].
    right. exists x. split; [left|done].
  - right. exists y. split; [by right|done].
Qed.

Lemma period_labels_dom (labels : gmap nat string) (mc : list (MonthRow * nat))
    (acc : gmap string string) (p : string) :
  is_Some (foldl (λ acc x, <[mr_period x.1 := default Balanced (labels !! x.2)]> acc)
                 acc mc !! p)
  ↔ is_Some (acc !! p) ∨ p ∈ mr_period <$> mc.*1.
Proof.
  revert acc. induction mc as [|x mc IH]; intros acc; simpl.
  - rewrite elem_of_nil. tauto.
  - rewrite IH, elem_of_cons.
    destruct (decide (mr_period x.1 = p)) as [<-|Hne].
    + rewrite lookup_insert_eq. split; [auto|]. intros _. left. by eexists.
    + rewrite lookup_insert_ne by done. split; [tauto|].
      intros [?|[?|?]]; auto. congruence.
Qed.

(** The monthly features are always computed on a frame with a description
    column. *)
Lemma month_features_ok (p : string) (group : DataFrame) :
  has_col group "description" = true →
  ∃ row, month_features p group = Ok row ∧ mr_period row = p.
Proof.
  intros Hcol. unfold month_features. rewrite compute_basic_stats_eq, Hcol. simpl.
  set (te := if decide (0 < py_round (expense_sum group) 2)%Q
             then py_round (expense_sum group) 2 else (1 # 1000000)%Q).
  assert (0 < te)%Q as Hte by (unfold te; destruct (decide _); [done|lra]).
  rewrite !(py_truediv_pos _ _ Hte). simpl. by eexists.
Qed.

Lemma monthly_rows_ok (df : DataFrame) :
  has_col df "description" = true →
  ∃ monthly, monthly_rows df = Ok monthly ∧ mr_period <$> monthly = periods_of df.
Proof.
  intros Hcol. unfold monthly_rows.
  induction (periods_of df) as [|p ps (monthly & Hm & Hp)]; simpl; [by exists []|].
  destruct (month_features_ok p (month_group df p) Hcol) as (row & -> & Hrow).
  simpl. rewrite Hm. simpl. exists (row :: monthly). split; [done|].
  by rewrite fmap_cons, Hrow, Hp.
Qed.

(** ** The clustering path of the behaviour profiler *)

Section clustering.
Context {Scaled : Type}.
Variable fit_transform : list (list Q) → Scaled.
Variable fit_predict : nat → Scaled → list nat.

(** What is assumed of scikit-learn: [fit_predict] labels every sample, with
    a cluster index below [k]. *)
Hypothesis fit_predict_length :
  ∀ k X, length (fit_predict k (fit_transform X)) = length X.
Hypothesis fit_predict_range :
  ∀ k X, (0 < k)%nat → Forall (λ c, c < k)%nat (fit_predict k (fit_transform X)).

Lemma clustered_months (n : nat) (monthly : list MonthRow) :
  (clustered fit_transform fit_predict n monthly).*1 = monthly.
Proof.
  unfold clustered. apply fst_zip.
  by rewrite fit_predict_length, length_fmap.
Qed.

Lemma clustered_range (n : nat) (monthly : list MonthRow) :
  (1 ≤ n)%nat → monthly ≠ [] →
  Forall (λ c, c < n)%nat (clustered fit_transform fit_predict n monthly).*2.
Proof.
  intros Hn Hne. unfold clustered.
  rewrite snd_zip by by rewrite fit_predict_length, length_fmap.
  eapply Forall_impl; [apply fit_predict_range|].
  - destruct monthly; [done|]. simpl. lia.
  - simpl. lia.
Qed.

Lemma clustering_path (df : DataFrame) (n : nat) :
  has_col df "description" = true →
  (2 ≤ length (periods_of df))%nat → (1 ≤ n)%nat →
  ∃ monthly st,
    monthly_rows df = Ok monthly
    ∧ mr_period <$> monthly = periods_of df
    ∧ assign_inv (cluster_info_of (clustered fit_transform fit_predict n monthly))
        [LifestyleSpender; SubscriptionHeavy; SuperSaver] 3 st
    ∧ (size (list_to_set
               (cluster <$> cluster_info_of
                              (clustered fit_transform fit_predict n monthly))
             : gset nat) ≤ n)%nat
    ∧ assign_cluster_labels
        (cluster_info_of (clustered fit_transform fit_predict n monthly))
      = Ok (set_fold (λ cid labels, <[cid := Balanced]> labels) st.1 st.2)
    ∧ build_behaviour_profiles fit_transform fit_predict df n
      = Ok {| labels_by_period :=
                cluster_period_labels
                  (set_fold (λ cid labels, <[cid := Balanced]> labels) st.1 st.2)
                  (clustered fit_transform fit_predict n monthly);
              cluster_descriptions := _default_cluster_descriptions |}.
Proof.
  intros Hcol Hlen Hn.
  destruct (monthly_rows_ok df Hcol) as (monthly & Hm & Hp).
  assert (length monthly = length (periods_of df)) as Hlm
    by by rewrite <- Hp, length_fmap.
  assert (monthly ≠ []) as Hne by (intros ->; simpl in Hlm; lia).
  set (mc := clustered fit_transform fit_predict n monthly).
  assert (mc ≠ []) as Hmc.
  { intros Hnil. apply Hne. rewrite <- (clustered_months n monthly).
    fold mc. by rewrite Hnil. }
  destruct (assign_cluster_labels_inv (cluster_info_of mc)
              (cluster_info_nonempty mc Hmc)) as (st & Hinv & Hassign).
  exists monthly, st. fold mc.
  split; [done|]. split; [done|]. split; [done|]. split.
  { apply size_cluster_ids. by apply clustered_range. }
  split; [done|].
  unfold build_behaviour_profiles.
  rewrite bool_decide_false; last first.
  { intros Hrows. unfold periods_of in Hlen. rewrite Hrows in Hlen.
    simpl in Hlen. lia. }
  rewrite Hm. simpl.
  rewrite bool_decide_false by done.
  rewrite bool_decide_false by lia.
  fold mc. rewrite Hassign. done.
Qed.

(** C4: on the clustering path (two or more months, at most four clusters
    requested, among them the default three) the greedy assignment returns
    a labelling in which every cluster has exactly one label, taken from
    the four personas, and no label is given to two different clusters. *)
Theorem cluster_labels_distinct (df : DataFrame) (n_clusters : nat) :
  has_col df "description" = true →
  (2 ≤ length (periods_of df))%nat →
  (1 ≤ n_clusters ≤ 4)%nat →
  ∃ monthly labels profiles,
    monthly_rows df = Ok monthly
    ∧ assign_cluster_labels
        (cluster_info_of (clustered fit_transform fit_predict n_clusters monthly))
      = Ok labels
    ∧ build_behaviour_profiles fit_transform fit_predict df n_clusters
      = Ok profiles
    ∧ labels_by_period profiles
      = cluster_period_labels labels
          (clustered fit_transform fit_predict n_clusters monthly)
    ∧ (∀ c, c ∈ (clustered fit_transform fit_predict n_clusters monthly).*2
            ↔ is_Some (labels !! c))
    ∧ (∀ c l, labels !! c = Some l →
              l ∈ [SuperSaver; SubscriptionHeavy; LifestyleSpender; Balanced])
    ∧ (∀ c1 c2 l, labels !! c1 = Some l → labels !! c2 = Some l → c1 = c2).
Proof.
  intros Hcol Hlen [Hn1 Hn4].
  destruct (clustering_path df n_clusters Hcol Hlen Hn1)
    as (monthly & st & Hm & _ & Hinv & Hsize & Hassign & Hbuild).
  destruct (final_labels_spec _ st Hinv) as (Hdom & Hvals & Hinj & _).
  eexists monthly, _, _.
  split; [done|]. split; [exact Hassign|]. split; [exact Hbuild|].
  split; [done|]. split.
  { intros c. rewrite <- Hdom. symmetry. apply elem_of_cluster_ids. }
  split; [done|]. apply Hinj. lia.
Qed.

(** C10: on the clustering path with at most three clusters requested (the
    default), every month of the history is labelled, and its label is one
    of "Super Saver", "Subscription Heavy" and "Lifestyle Spender", never
    "Balanced". *)
Theorem clustering_never_balanced (df : DataFrame) (n_clusters : nat) :
  has_col df "description" = true →
  (2 ≤ length (periods_of df))%nat →
  (1 ≤ n_clusters ≤ 3)%nat →
  ∃ profiles,
    build_behaviour_profiles fit_transform fit_predict df n_clusters
    = Ok profiles
    ∧ (∀ p, p ∈ periods_of df ↔ is_Some (labels_by_period profiles !! p))
    ∧ (∀ p l, labels_by_period profiles !! p = Some l →
              l ∈ [SuperSaver; SubscriptionHeavy; LifestyleSpender])
    ∧ (∀ p, labels_by_period profiles !! p ≠ Some Balanced).
Proof.
  intros Hcol Hlen [Hn1 Hn3].
  destruct (clustering_path df n_clusters Hcol Hlen Hn1)
    as (monthly & st & Hm & Hp & Hinv & Hsize & Hassign & Hbuild).
  destruct (final_labels_spec _ st Hinv) as (Hdom & _ & _ & Hthree).
  eexists. split; [exact Hbuild|]. simpl.
  assert (∀ p l,
            cluster_period_labels
              (set_fold (λ cid labels, <[cid := Balanced]> labels) st.1 st.2)
              (clustered fit_transform fit_predict n_clusters monthly) !! p
            = Some l →
            l ∈ [SuperSaver; SubscriptionHeavy; LifestyleSpender]) as Hall.
  { intros p l [Hempty|(x & Hx & _ & ->)]%period_labels_lookup; [done|].
    assert (x.2 ∈ (clustered fit_transform fit_predict n_clusters monthly).*2)
      as Hc by (apply list_elem_of_fmap; eauto).
    apply elem_of_cluster_ids, Hdom in Hc as [l Hl].
    rewrite Hl. simpl. apply (Hthree ltac:(lia) _ _ Hl). }
  split; [|split; [done|]].
  - intros p. unfold cluster_period_labels.
    rewrite period_labels_dom, clustered_months, Hp, lookup_empty.
    split; [auto|]. intros [[? ?]|?]; done.
  - intros p Hb. apply Hall in Hb. revert Hb.
    by apply (bool_decide_unpack _); vm_compute.
Qed.
End clustering.

(** ** The category resolver *)

Lemma startswith_spec (p s : string) :
  startswith p s = true ↔ ∃ b, s = p +:+ b.
Proof.
  revert s. induction p as [|a p IH]; intros s; simpl.
  - split; [by eauto|done].
  - destruct s as [|c s].
    + split; [done|]. by intros [b ?].
    + destruct (decide (a = c)) as [->|Hne].
      * rewrite IH. split; intros [b Hb]; exists b.
        -- by rewrite Hb.
        -- by injection Hb.
      * split; [done|]. intros [b Hb]. injection Hb as ? ?. done.
Qed.

Lemma py_in_spec (kw text : string) : py_in kw text = true ↔ occurs kw text.
Proof.
  unfold occurs. induction text as [|c t IH]; simpl.
  - rewrite orb_false_r, startswith_spec. split.
    + intros [b Hb]. by exists "", b.
    + intros ([|a0 a] & b & Hb); [by exists b|done].
  - rewrite orb_true_iff, startswith_spec, IH. split.
    + intros [[b Hb]|(a & b & Hb)].
      * by exists "", b.
      * exists (String c a), b. by rewrite Hb.
    + intros ([|a0 a] & b & Hb).
      * left. by exists b.
      * right. injection Hb as -> Ht. by exists a, b.
Qed.

(** The loop over the table stops at the first keyword that occurs. *)
Lemma first_keyword_Some (table : list (string * string)) (text cat : string) :
  first_keyword table text = Some cat →
  ∃ pre kw post, table = pre ++ (kw, cat) :: post ∧ occurs kw text
    ∧ ∀ kw' cat', (kw', cat') ∈ pre → ¬ occurs kw' text.
Proof.
  induction table as [|[kw c] table IH]; simpl; [done|].
  destruct (py_in kw text) eqn:Hin.
  - intros [= ->]. exists [], kw, table. split; [done|].
    split; [by apply py_in_spec|]. by intros ?? ?%elem_of_nil.
  - intros (pre & kw0 & post & -> & Hocc & Hpre)%IH.
    exists ((kw, c) :: pre), kw0, post. split; [done|]. split; [done|].
    intros kw' cat' [[= -> ->]|?]%elem_of_cons; [|by eauto].
    rewrite <- py_in_spec. by rewrite Hin.
Qed.

Lemma first_keyword_None (table : list (string * string)) (text : string) :
  first_keyword table text = None →
  ∀ kw cat, (kw, cat) ∈ table → ¬ occurs kw text.
Proof.
  induction table as [|[kw c] table IH]; simpl; [by intros _ ?? ?%elem_of_nil|].
  destruct (py_in kw text) eqn:Hin; [done|].
  intros Hnone kw' cat' [[= -> ->]|?]%elem_of_cons; [|by eauto].
  rewrite <- py_in_spec. by rewrite Hin.
Qed.

Lemma mask_missing_blank (r : Row) : mask_missing r = true ↔ blank (category r).
Proof.
  unfold mask_missing, blank. destruct (category r); [|done].
  by rewrite bool_decide_eq_true.
Qed.

Lemma has_col_add_category (df : DataFrame) (c : string) :
  c ≠ "category" → has_col (add_category_column df) c = has_col df c.
Proof.
  intros Hc. unfold has_col. simpl. apply bool_decide_ext.
  rewrite elem_of_app, list_elem_of_singleton. tauto.
Qed.

(** The frame that the resolver works on: the input, with an all-missing
    category column when it has none. *)
Lemma apply_auto_categories_result (σ : store) (df : nat) :
  ∃ σ' out, apply_auto_categories_to_df σ df = (σ', out)
    ∧ (out ∉ dom σ) ∧ (out ≠ df)
    ∧ σ' !!! out
      = fill_categories (if has_col (σ !!! df) "category" then σ !!! df
                         else add_category_column (σ !!! df))
    ∧ (df ∈ dom σ →
       σ' !! df = Some (if has_col (σ !!! df) "category" then σ !!! df
                        else add_category_column (σ !!! df)))
    ∧ (∀ other, other ≠ df → other ≠ out → σ' !! other = σ !! other).
Proof.
  unfold apply_auto_categories_to_df, copy.
  set (σ1 := if negb (has_col (σ !!! df) "category")
             then <[df := add_category_column (σ !!! df)]> σ else σ).
  set (out := fresh (dom σ1)).
  assert (out ∉ dom σ1) as Hfresh by apply is_fresh.
  assert (dom σ ⊆ dom σ1) as Hdom.
  { unfold σ1. destruct (has_col _ _); simpl; [done|].
    rewrite dom_insert_L. set_solver. }
  assert (df ∈ dom σ → σ1 !! df
          = Some (if has_col (σ !!! df) "category" then σ !!! df
                  else add_category_column (σ !!! df))) as Hdf.
  { intros Hin. unfold σ1. destruct (has_col _ _); simpl.
    - by apply lookup_lookup_total_dom.
    - apply lookup_insert_eq. }
  assert (σ1 !!! df = if has_col (σ !!! df) "category" then σ !!! df
                      else add_category_column (σ !!! df)) as Hdf'.
  { unfold σ1. destruct (has_col _ _); simpl; [done|].
    apply lookup_total_insert_eq. }
  assert (out ≠ df) as Hne.
  { intros Heq. destruct (decide (df ∈ dom σ1)) as [Hin|Hnin]; [congruence|].
    unfold σ1 in Hnin.
    destruct (has_col (σ !!! df) "category") eqn:Hc; simpl in Hnin.
    - rewrite lookup_total_alt, (not_elem_of_dom_1 _ _ Hnin) in Hc. done.
    - rewrite dom_insert_L in Hnin. set_solver. }
  eexists _, out. split; [done|].
  split; [set_solver|]. split; [done|]. split.
  { by rewrite lookup_total_insert_eq, lookup_total_insert_eq, Hdf'. }
  split.
  { intros Hin. rewrite !lookup_insert_ne by done. by apply Hdf. }
  intros other Hother Hout. rewrite !lookup_insert_ne by done.
  unfold σ1. destruct (has_col _ _); simpl; [done|].
  by rewrite lookup_insert_ne.
Qed.

Lemma with_category_same (r : Row) : with_category r (category r) = r.
Proof. by destruct r. Qed.

(** The code passes [str(description)] to the search, so an absent
    description contributes the text "none", and a frame without a description
    column an empty first field.  Neither changes which keyword is found. *)
Lemma first_keyword_ext (table : list (string * string)) (t1 t2 : string) :
  Forall (λ kv : string * string, py_in kv.1 t1 = py_in kv.1 t2) table →
  first_keyword table t1 = first_keyword table t2.
Proof.
  induction 1 as [|[kw cat] table Hkw _ IH]; simpl; [done|].
  simpl in Hkw. by rewrite Hkw, IH.
Qed.

Lemma none_prefix_irrelevant :
  Forall (λ kv : string * string,
            ∀ t, py_in kv.1
                   (String "n" (String "o" (String "n" (String "e" (String " " t)))))
                 = py_in kv.1 t)
         KEYWORD_CATEGORY_MAP.
Proof. unfold KEYWORD_CATEGORY_MAP. repeat constructor; intros t; cbn; reflexivity. Qed.

Lemma space_prefix_irrelevant :
  Forall (λ kv : string * string, ∀ t, py_in kv.1 (String " " t) = py_in kv.1 t)
         KEYWORD_CATEGORY_MAP.
Proof. unfold KEYWORD_CATEGORY_MAP. repeat constructor; intros t; cbn; reflexivity. Qed.

Lemma resolver_skips_absent_fields (df : DataFrame) (r : Row) :
  first_keyword KEYWORD_CATEGORY_MAP (row_text df r)
  = first_keyword KEYWORD_CATEGORY_MAP (present_text df r).
Proof.
  unfold row_text, present_text, search_text, row_description.
  set (fields := [row_source df r; row_account_name df r]).
  destruct (has_col df "description").
  - destruct (description r) as [d|]; [done|].
    change (first_keyword KEYWORD_CATEGORY_MAP
              (join_space (lower "None" :: (lower <$> omap id fields)))
            = first_keyword KEYWORD_CATEGORY_MAP
                (join_space (lower <$> omap id fields))).
    destruct (lower <$> omap id fields) as [|x rest]; [by vm_compute|].
    apply first_keyword_ext.
    eapply Forall_impl; [apply none_prefix_irrelevant|].
    intros kv Hkv. apply (Hkv (join_space (x :: rest))).
  - change (first_keyword KEYWORD_CATEGORY_MAP
              (join_space (lower "" :: (lower <$> omap id fields)))
            = first_keyword KEYWORD_CATEGORY_MAP
                (join_space (lower <$> omap id fields))).
    destruct (lower <$> omap id fields) as [|x rest]; [by vm_compute|].
    apply first_keyword_ext.
    eapply Forall_impl; [apply space_prefix_irrelevant|].
    intros kv Hkv. apply (Hkv (join_space (x :: rest))).
Qed.

Lemma present_text_claimed (df : DataFrame) (r : Row) :
  present_text df r = claimed_text df r.
Proof.
  unfold present_text, claimed_text, row_source, row_account_name, field.
  destruct (has_col df "description"), (has_col df "source"),
    (has_col df "account_name"), (description r), (source r), (account_name r);
    reflexivity.
Qed.

(** The text that the code searches finds the same keyword as the search
    string of the claim. *)
Lemma guess_category_claimed (df : DataFrame) (r : Row) :
  guess_category (row_description df r) (row_source df r) (row_account_name df r)
  = first_keyword KEYWORD_CATEGORY_MAP (claimed_text df r).
Proof.
  unfold guess_category. fold (row_text df r).
  by rewrite resolver_skips_absent_fields, present_text_claimed.
Qed.

(** What [_categorise_row] returns: the category of the first keyword of the
    table that occurs in the text of the row, or the existing category when
    no keyword occurs. *)
Lemma categorise_row_spec (df : DataFrame) (r : Row) :
  (∃ pre kw cat post,
     KEYWORD_CATEGORY_MAP = pre ++ (kw, cat) :: post
     ∧ occurs kw (claimed_text df r)
     ∧ (∀ kw' cat', (kw', cat') ∈ pre → ¬ occurs kw' (claimed_text df r))
     ∧ _categorise_row df r = Some cat)
  ∨ ((∀ kw cat, (kw, cat) ∈ KEYWORD_CATEGORY_MAP →
                ¬ occurs kw (claimed_text df r))
     ∧ _categorise_row df r = category r).
Proof.
  unfold _categorise_row. rewrite guess_category_claimed.
  destruct (first_keyword KEYWORD_CATEGORY_MAP (claimed_text df r))
    as [cat|] eqn:Hk.
  - left. apply first_keyword_Some in Hk as (pre & kw & post & ? & ? & ?).
    by exists pre, kw, cat, post.
  - right. split; [|done]. by apply first_keyword_None.
Qed.

Lemma row_text_add_category (df : DataFrame) (r : Row) (c : option string) :
  row_text (add_category_column df) (with_category r c) = row_text df r.
Proof.
  unfold row_text, row_description, row_source, row_account_name.
  by rewrite !has_col_add_category.
Qed.

Lemma claimed_text_add_category (df : DataFrame) (r : Row) (c : option string) :
  claimed_text (add_category_column df) (with_category r c) = claimed_text df r.
Proof. unfold claimed_text, field. by rewrite !has_col_add_category. Qed.

(** The first keyword of a table that occurs in a text is the one that
    [first_keyword] finds. *)
Lemma first_keyword_complete (table : list (string * string)) (text : string)
    (pre post : list (string * string)) (kw cat : string) :
  table = pre ++ (kw, cat) :: post →
  occurs kw text →
  (∀ kw' cat', (kw', cat') ∈ pre → ¬ occurs kw' text) →
  first_keyword table text = Some cat.
Proof.
  intros -> Hocc. induction pre as [|[kw' cat'] pre IH]; intros Hpre; simpl.
  - apply py_in_spec in Hocc. by rewrite Hocc.
  - destruct (py_in kw' text) eqn:Hin.
    + apply py_in_spec in Hin. destruct (Hpre kw' cat'); [left|done].
    + apply IH. intros ?? ?. apply (Hpre _ cat'0). by right.
Qed.

Lemma first_keyword_no_match (table : list (string * string)) (text : string) :
  (∀ kw cat, (kw, cat) ∈ table → ¬ occurs kw text) →
  first_keyword table text = None.
Proof.
  induction table as [|[kw cat] table IH]; intros Hno; simpl; [done|].
  destruct (py_in kw text) eqn:Hin.
  - apply py_in_spec in Hin. destruct (Hno kw cat); [left|done].
  - apply IH. intros ?? ?. apply (Hno _ cat0). by right.
Qed.

(** A category described by the first keyword that occurs can be computed
    with [first_keyword]. *)
Lemma described_category (text : string) (existing resolved : option string) :
  (∃ pre kw cat post,
     KEYWORD_CATEGORY_MAP = pre ++ (kw, cat) :: post
     ∧ occurs kw text
     ∧ (∀ kw' cat', (kw', cat') ∈ pre → ¬ occurs kw' text)
     ∧ resolved = Some cat)
  ∨ ((∀ kw cat, (kw, cat) ∈ KEYWORD_CATEGORY_MAP → ¬ occurs kw text)
     ∧ resolved = existing) →
  resolved = match first_keyword KEYWORD_CATEGORY_MAP text with
             | Some cat => Some cat
             | None => existing
             end.
Proof.
  intros [(pre & kw & cat & post & Htable & Hocc & Hpre & ->)|[Hno ->]].
  - by rewrite (first_keyword_complete _ _ _ _ _ _ Htable Hocc Hpre).
  - by rewrite (first_keyword_no_match _ _ Hno).
Qed.

(** C9: the resolver returns a fresh frame with the rows of its input in
    order.  A row whose category is present and not blank keeps it.  A row
    whose category is absent or blank gets the category of the first keyword,
    in the order of the table, that occurs as a substring of the lower-cased
    description, source and account name put one after the other (an absent
    field skipped, a single space in between), and keeps its existing
    category when no keyword occurs.  No other field of a row changes. *)
Theorem category_resolver_spec (σ : store) (df : nat) :
  ∃ σ' out, apply_auto_categories_to_df σ df = (σ', out)
    ∧ Forall2
        (λ r r',
           r' = with_category r (category r')
           ∧ (¬ blank (category_or_none (σ !!! df) r) → category r' = category r)
           ∧ (blank (category_or_none (σ !!! df) r) →
              (∃ pre kw cat post,
                 KEYWORD_CATEGORY_MAP = pre ++ (kw, cat) :: post
                 ∧ occurs kw (claimed_text (σ !!! df) r)
                 ∧ (∀ kw' cat', (kw', cat') ∈ pre →
                                ¬ occurs kw' (claimed_text (σ !!! df) r))
                 ∧ category r' = Some cat)
              ∨ ((∀ kw cat, (kw, cat) ∈ KEYWORD_CATEGORY_MAP →
                            ¬ occurs kw (claimed_text (σ !!! df) r))
                 ∧ category r' = category_or_none (σ !!! df) r)))
        (rows (σ !!! df)) (rows (σ' !!! out)).
Proof.
  destruct (apply_auto_categories_result σ df)
    as (σ' & out & Hcall & _ & _ & Hout & _).
  exists σ', out. split; [done|]. rewrite Hout.
  set (input := σ !!! df). unfold category_or_none.
  destruct (has_col input "category") eqn:Hcol; simpl.
  - apply Forall2_fmap_r, Forall_Forall2_diag, Forall_forall. intros r _.
    simpl. destruct (mask_missing r) eqn:Hmask.
    + apply mask_missing_blank in Hmask. simpl.
      split; [done|]. split; [by intros Hnb; destruct Hnb|]. intros _.
      destruct (categorise_row_spec input r)
        as [(pre & kw & cat & post & ? & ? & ? & ->)|[? ->]].
      * left. by exists pre, kw, cat, post.
      * by right.
    + assert (¬ blank (category r)) as Hnb.
      { rewrite <- mask_missing_blank. by rewrite Hmask. }
      split; [by rewrite with_category_same|]. split; [done|].
      intros Hb. by destruct Hnb.
  - rewrite <- list_fmap_compose.
    apply Forall2_fmap_r, Forall_Forall2_diag, Forall_forall. intros r _.
    simpl. split; [done|]. split; [by intros Hnb; destruct Hnb|]. intros _.
    destruct (categorise_row_spec (add_category_column input)
                (with_category r None))
      as [(pre & kw & cat & post & ? & Hocc & Hpre & ->)|[Hno ->]];
      rewrite claimed_text_add_category in *.
    * left. by exists pre, kw, cat, post.
    * by right.
Qed.

(** ** Aliasing: the caller's frame *)

(** When the caller's frame has a category column, the call leaves every
    object of the caller untouched. *)
Lemma apply_auto_categories_preserves (σ : store) (df : nat) :
  has_col (σ !!! df) "category" = true →
  ∃ σ' out, apply_auto_categories_to_df σ df = (σ', out)
    ∧ ∀ obj, obj ∈ dom σ → σ' !! obj = σ !! obj.
Proof.
  intros Hcol.
  destruct (apply_auto_categories_result σ df)
    as (σ' & out & Hcall & Hfresh & _ & _ & Hdf & Hother).
  exists σ', out. split; [done|]. intros obj Hobj.
  destruct (decide (obj = df)) as [->|Hne].
  - rewrite (Hdf Hobj), Hcol. symmetry. by apply lookup_lookup_total_dom.
  - apply Hother; [done|]. by intros ->.
Qed.

(** When it has none, the call adds the column to the caller's frame. *)
Lemma apply_auto_categories_adds_column (σ : store) (df : nat) :
  df ∈ dom σ → has_col (σ !!! df) "category" = false →
  ∃ σ' out, apply_auto_categories_to_df σ df = (σ', out)
    ∧ σ' !! df = Some (add_category_column (σ !!! df))
    ∧ columns (σ' !!! df) = columns (σ !!! df) ++ ["category"].
Proof.
  intros Hin Hcol.
  destruct (apply_auto_categories_result σ df)
    as (σ' & out & Hcall & _ & _ & _ & Hdf & _).
  exists σ', out. split; [done|].
  specialize (Hdf Hin). rewrite Hcol in Hdf. split; [done|].
  by rewrite (lookup_total_correct _ _ _ Hdf).
Qed.

(** C6 fails on the code: called on a frame without a category column, the
    resolver adds the column to the caller's frame before it takes its
    working copy. *)
Theorem auto_categories_mutates_caller :
  ∃ σ' out,
    apply_auto_categories_to_df {[ 0%nat := no_category_frame ]} 0%nat = (σ', out)
    ∧ out ≠ 0%nat
    ∧ columns (σ' !!! 0%nat) = columns no_category_frame ++ ["category"]
    ∧ σ' !! 0%nat ≠ Some no_category_frame.
Proof.
  destruct (apply_auto_categories_result {[ 0%nat := no_category_frame ]} 0%nat)
    as (σ' & out & Hcall & _ & Hne & _ & Hdf & _).
  exists σ', out. split; [done|]. split; [done|].
  rewrite lookup_total_singleton in Hdf.
  specialize (Hdf ltac:(set_solver)). simpl in Hdf.
  rewrite (lookup_total_correct _ _ _ Hdf), Hdf. split; [done|].
  by intros [= Heq].
Qed.

(** ** The action recommender *)

Lemma dedupe_spec (seen : gset string) (l : list string) :
  NoDup (dedupe seen l) ∧ ∀ a, a ∈ dedupe seen l → (a ∉ seen) ∧ a ∈ l.
Proof.
  revert seen. induction l as [|x l IH]; intros seen; simpl.
  - split; [constructor|]. by intros a ?%elem_of_nil.
  - destruct (decide (x ∈ seen)) as [Hx|Hx].
    + destruct (IH seen) as [Hnd Hin]. split; [done|].
      intros a Ha. destruct (Hin a Ha). split; [done|by right].
    + destruct (IH ({[x]} ∪ seen)) as [Hnd Hin]. split.
      * constructor; [|done]. intros Hx'%Hin. set_solver.
      * intros a [->|Ha]%elem_of_cons; [split; [done|left]|].
        destruct (Hin a Ha). split; [set_solver|by right].
Qed.

(** The recommender returns at most five actions, without duplicates. *)
Lemma recommend_actions_bounded (stats : StatsDict) (categories : list CategoryEntry)
    (patterns : PatternsDict) :
  (length (recommend_actions_for_next_month stats categories patterns) ≤ 5)%nat
  ∧ NoDup (recommend_actions_for_next_month stats categories patterns).
Proof.
  unfold recommend_actions_for_next_month. split.
  - rewrite length_take. lia.
  - eapply sublist_NoDup; [apply dedupe_spec|apply sublist_take].
Qed.

(** C2 fails on the code: the filler is appended once, so a month in which
    only the savings rule fires (strong savings rate, no fee, no spike, no
    subscription, and a top category whose name is blank) gets two actions,
    not three. *)
Theorem actions_filler_shortfall :
  ∃ st p,
    compute_basic_stats (fill_categories blank_category_month) = Ok st
    ∧ detect_patterns (fill_categories blank_category_month) = Ok p
    ∧ compute_category_breakdown (fill_categories blank_category_month) ≠ []
    ∧ recommend_actions_for_next_month (stats_dict st)
        (compute_category_breakdown (fill_categories blank_category_month))
        (patterns_dict p)
      = [ "Your savings rate is strong. Protect it by keeping fixed essentials and recurring commitments stable.";
          filler_action ]
    ∧ length (recommend_actions_for_next_month (stats_dict st)
                (compute_category_breakdown (fill_categories blank_category_month))
                (patterns_dict p)) = 2%nat.
Proof.
  eexists _, _. split; [by vm_compute|]. split; [by vm_compute|].
  split; [by vm_compute|]. split; by vm_compute.
Qed.

(** * Worked examples *)

Lemma whole_cents_Z (n : Z) : whole_cents (inject_Z n).
Proof.
  exists (n * 100)%Z. rewrite inject_Z_mult. reflexivity.
Qed.

Lemma round_robin_length (k : nat) (X : list (list Q)) :
  length (round_robin k (id X)) = length X.
Proof. unfold round_robin. by rewrite length_fmap, length_seq. Qed.

Lemma round_robin_range (k : nat) (X : list (list Q)) :
  (0 < k)%nat → Forall (λ c, c < k)%nat (round_robin k (id X)).
Proof.
  intros Hk. unfold round_robin. apply Forall_fmap, Forall_forall.
  intros i _. simpl. apply Nat.mod_upper_bound. lia.
Qed.

Lemma january_whole_cents : Forall (λ r, whole_cents (amount r)) (rows sample_month).
Proof. repeat constructor; apply (whole_cents_Z _). Qed.

Lemma january_non_negative :
  Forall (λ r, is_expense r = true → (0 <= amount r)%Q) (rows sample_month).
Proof. repeat constructor; intros _; by vm_compute. Qed.

(** The breakdown of the sample month adds up to its 1300 of expenses. *)
Lemma breakdown_partitions_categorised_witness :
  Forall (λ r, whole_cents (amount r)) (rows sample_month)
  ∧ has_col sample_month "category" = true
  ∧ (sumQ (total_spend <$> compute_category_breakdown sample_month)
     == categorised_expense_sum sample_month)%Q
  ∧ (categorised_expense_sum sample_month == 1300)%Q.
Proof.
  split; [exact january_whole_cents|]. split; [reflexivity|].
  destruct (breakdown_partitions_categorised sample_month january_whole_cents)
    as [_ Hcat].
  destruct (Hcat eq_refl) as [Hsum _].
  split; [exact Hsum|]. vm_compute. reflexivity.
Defined.


(** December of the sample history closes with a deficit and is flagged
    critical. *)
Lemma cashflow_flag_ordered_witness :
  has_col (month_group sample_history "2024-12") "description" = true
  ∧ ∃ p, detect_patterns (month_group sample_history "2024-12") = Ok p
      ∧ cashflow_flag p = "critical".
Proof.
  split; [reflexivity|].
  destruct (cashflow_flag_ordered (month_group sample_history "2024-12") eq_refl)
    as (p & st & Hp & Hst & Hcritical & _).
  exists p. split; [exact Hp|]. apply Hcritical.
  rewrite compute_basic_stats_eq in Hst. injection Hst as <-.
  vm_compute. reflexivity.
Defined.


(** The resolver on five transactions: a keyword of the description, the
    first of two keywords in the order of the table, an existing category
    that is kept, a row without any keyword, and a keyword of the source. *)
Lemma category_resolver_spec_witness :
  ∃ σ' out,
    apply_auto_categories_to_df {[ 0%nat := resolver_frame ]} 0%nat = (σ', out)
    ∧ category <$> rows (σ' !!! out)
      = [Some "Transport"; Some "Subscriptions"; Some "Gifts"; None;
         Some "Subscriptions"].
Proof.
  destruct (category_resolver_spec {[ 0%nat := resolver_frame ]} 0%nat)
    as (σ' & out & Hcall & Hrows).
  exists σ', out. split; [exact Hcall|]. clear Hcall.
  rewrite lookup_total_singleton in Hrows.
  change (rows resolver_frame) with resolver_rows in Hrows.
  unfold resolver_rows in Hrows.
  remember (rows (σ' !!! out)) as resolved eqn:Hresolved. clear Hresolved.
  apply Forall2_cons_inv_l in Hrows as (r1 & l1 & H1 & Hrows & ->).
  apply Forall2_cons_inv_l in Hrows as (r2 & l2 & H2 & Hrows & ->).
  apply Forall2_cons_inv_l in Hrows as (r3 & l3 & H3 & Hrows & ->).
  apply Forall2_cons_inv_l in Hrows as (r4 & l4 & H4 & Hrows & ->).
  apply Forall2_cons_inv_l in Hrows as (r5 & l5 & H5 & Hrows & ->).
  apply Forall2_nil_inv_l in Hrows as ->.
  destruct H1 as (_ & _ & H1), H2 as (_ & _ & H2), H3 as (_ & H3 & _),
    H4 as (_ & _ & H4), H5 as (_ & _ & H5).
  pose proof (described_category _ _ _ (H1 I)) as E1.
  pose proof (described_category _ _ _ (H2 eq_refl)) as E2.
  pose proof (H3 ltac:(vm_compute; discriminate)) as E3.
  pose proof (described_category _ _ _ (H4 I)) as E4.
  pose proof (described_category _ _ _ (H5 I)) as E5.
  clear H1 H2 H3 H4 H5. simpl. rewrite E1, E2, E3, E4, E5.
  vm_compute. reflexivity.
Defined.

(** The three months of the sample history, clustered round-robin. *)
Lemma cluster_labels_distinct_witness :
  (∀ k X, length (round_robin k (id X)) = length X)
  ∧ (∀ k X, (0 < k)%nat → Forall (λ c, c < k)%nat (round_robin k (id X)))
  ∧ has_col sample_history "description" = true
  ∧ (2 ≤ length (periods_of sample_history))%nat
  ∧ (1 ≤ 3 ≤ 4)%nat
  ∧ ∃ monthly labels,
      monthly_rows sample_history = Ok monthly
      ∧ assign_cluster_labels
          (cluster_info_of (clustered id round_robin 3 monthly)) = Ok labels
      ∧ (∀ c, c ∈ (clustered id round_robin 3 monthly).*2 ↔ is_Some (labels !! c))
      ∧ (∀ c1 c2 l, labels !! c1 = Some l → labels !! c2 = Some l → c1 = c2).
Proof.
  assert (2 ≤ length (periods_of sample_history))%nat as Hlen
    by (vm_compute; lia).
  split; [exact round_robin_length|]. split; [exact round_robin_range|].
  split; [reflexivity|]. split; [exact Hlen|]. split; [lia|].
  destruct (cluster_labels_distinct id round_robin round_robin_length
              round_robin_range sample_history 3 eq_refl Hlen ltac:(lia))
    as (monthly & labels & profiles & Hm & Hl & _ & _ & Hdom & _ & Hinj).
  exists monthly, labels. split; [exact Hm|]. split; [exact Hl|].
  split; [exact Hdom|exact Hinj].
Defined.

Lemma clustering_never_balanced_witness :
  (∀ k X, length (round_robin k (id X)) = length X)
  ∧ (∀ k X, (0 < k)%nat → Forall (λ c, c < k)%nat (round_robin k (id X)))
  ∧ has_col sample_history "description" = true
  ∧ (2 ≤ length (periods_of sample_history))%nat
  ∧ (1 ≤ 3 ≤ 3)%nat
  ∧ ∃ profiles,
      build_behaviour_profiles id round_robin sample_history 3 = Ok profiles
      ∧ is_Some (labels_by_period profiles !! "2025-01")
      ∧ ∀ p, labels_by_period profiles !! p ≠ Some Balanced.
Proof.
  assert (2 ≤ length (periods_of sample_history))%nat as Hlen
    by (vm_compute; lia).
  split; [exact round_robin_length|]. split; [exact round_robin_range|].
  split; [reflexivity|]. split; [exact Hlen|]. split; [lia|].
  destruct (clustering_never_balanced id round_robin round_robin_length
              round_robin_range sample_history 3 eq_refl Hlen ltac:(lia))
    as (profiles & Hbuild & Hdom & _ & Hnever).
  exists profiles. split; [exact Hbuild|]. split; [|exact Hnever].
  apply Hdom. apply (bool_decide_unpack _). vm_compute. exact I.
Defined.

(** * Further properties *)

(** ** The order of the results *)

Global Instance amount_desc_total {K : Type} : Total (@amount_desc K).
Proof.
  intros a b. unfold amount_desc.
  destruct (Qlt_le_dec b.2 a.2) as [H|H]; [left; by apply Qlt_le_weak|by right].
Qed.

Global Instance amount_desc_trans {K : Type} : Transitive (@amount_desc K).
Proof. intros a b c Hab Hbc. unfold amount_desc in *. by apply Qle_trans with b.2. Qed.

Global Instance movers_first_total : Total movers_first.
Proof.
  intros a b. unfold movers_first.
  destruct (Qlt_le_dec (sort_key b) (sort_key a)) as [H|H];
    [left; by apply Qlt_le_weak|by right].
Qed.

Global Instance movers_first_trans : Transitive movers_first.
Proof.
  intros a b c Hab Hbc. unfold movers_first in *.
  by apply Qle_trans with (sort_key b).
Qed.

(** In a sorted list an earlier element is related to every later one. *)
Lemma StronglySorted_lookup {A : Type} (R : relation A) (l : list A)
    (i j : nat) (a b : A) :
  StronglySorted R l → (i < j)%nat → l !! i = Some a → l !! j = Some b → R a b.
Proof.
  intros Hs. revert i j.
  induction Hs as [|x l Hs IH Hall]; intros i j Hij Hi Hj; first done.
  destruct j as [|j]; first lia.
  destruct i as [|i]; simpl in *.
  - injection Hi as <-. rewrite Forall_forall in Hall. apply Hall.
    by eapply list_elem_of_lookup_2.
  - apply (IH i j); [lia|done|done].
Qed.

(** X1: the category breakdown lists its entries by decreasing spend: the
    entries are sorted, so of any two entries the one listed first has the
    larger or the same reported total. *)
Theorem breakdown_sorted_descending (df : DataFrame) :
  StronglySorted spend_desc (compute_category_breakdown df)
  ∧ ∀ i j a b, (i < j)%nat →
      compute_category_breakdown df !! i = Some a →
      compute_category_breakdown df !! j = Some b →
      (total_spend b <= total_spend a)%Q.
Proof.
  assert (StronglySorted spend_desc (compute_category_breakdown df)) as Hs.
  { destruct (has_col df "category") eqn:Hc.
    - rewrite breakdown_entries by done.
      apply (StronglySorted_fmap _ amount_desc).
      + intros x y Hxy. unfold spend_desc, amount_desc in *. simpl.
        by apply py_round_le.
      + apply (StronglySorted_merge_sort _).
    - unfold compute_category_breakdown. rewrite Hc. constructor. }
  split; [done|]. intros i j a b Hij Ha Hb.
  by apply (StronglySorted_lookup spend_desc _ i j a b Hs).
Qed.

(** X2: a successful trend report is sorted by the size of the relative
    change, the largest first, a missing percentage counting as zero: once a
    row has no percentage, every row after it has none or a percentage that
    rounds to zero. *)
Theorem trends_sorted_by_change (df : DataFrame) (cp : string)
    (trends : list TrendRow) :
  compute_category_trends df cp = Ok trends →
  StronglySorted movers_first trends
  ∧ ∀ i j a b, (i < j)%nat → trends !! i = Some a → trends !! j = Some b →
      (sort_key b <= sort_key a)%Q
      ∧ (tr_delta_pct a = None →
         match tr_delta_pct b with Some p => (p == 0)%Q | None => True end).
Proof.
  intros Hres.
  assert (StronglySorted movers_first trends) as Hs.
  { unfold compute_category_trends in Hres.
    repeat match type of Hres with
           | (if ?c then _ else _) = _ => destruct c
           end;
      try (injection Hres as <-; constructor); try discriminate.
    destruct (traverse _ _) as [rs|e]; simpl in Hres; [|discriminate].
    injection Hres as <-. apply (StronglySorted_merge_sort _). }
  split; [done|]. intros i j a b Hij Ha Hb.
  pose proof (StronglySorted_lookup movers_first _ i j a b Hs Hij Ha Hb) as Hab.
  unfold movers_first in Hab. split; [done|].
  intros Hnone. unfold sort_key in Hab. rewrite Hnone in Hab.
  destruct (tr_delta_pct b) as [p|]; [|done].
  revert Hab. apply Qabs_case; intros; lra.
Qed.

(** The trends of January 2025 in the sample history: five categories, in the
    order of the sort. *)
Lemma trends_sorted_by_change_witness :
  ∃ trends, compute_category_trends sample_history "2025-01" = Ok trends
    ∧ length trends = 5%nat
    ∧ StronglySorted movers_first trends.
Proof.
  destruct (compute_category_trends sample_history "2025-01") as [trends|e] eqn:Hres.
  - exists trends. split; [reflexivity|].
    split; [|exact (proj1 (trends_sorted_by_change _ _ _ Hres))].
    revert Hres. vm_compute. intros Hres. injection Hres as <-. reflexivity.
  - exfalso. revert Hres. vm_compute. discriminate.
Defined.

(** ** The recommender never drops an action *)

Lemma first_char_app (c : ascii) (s t : string) :
  first_char (String c s +:+ t) = Some c.
Proof. reflexivity. Qed.

Lemma dedupe_NoDup (seen : gset string) (l : list string) :
  NoDup l → (∀ a, a ∈ l → a ∉ seen) → dedupe seen l = l.
Proof.
  intros Hnd. revert seen.
  induction Hnd as [|a l Hna Hnd IH]; intros seen Hseen; simpl; first done.
  rewrite decide_False by (apply Hseen; left).
  f_equal. apply IH. intros b Hb.
  rewrite elem_of_union, elem_of_singleton. intros [->|Hin]; [done|].
  apply (Hseen b); [by right|done].
Qed.

(** The rule actions begin with distinct letters, in a fixed order. *)
Lemma rule_actions_initials (stats : StatsDict) (categories : list CategoryEntry)
    (patterns : PatternsDict) :
  ∃ c rest, c ∈ ["S"; "I"; "Y"]%char
    ∧ first_char <$> rule_actions stats categories patterns = Some c :: rest
    ∧ rest `sublist_of` (Some <$> ["O"; "P"; "D"; "C"]%char).
Proof.
  unfold rule_actions.
  set (fees := default empty_count_total (d_high_fees patterns)).
  set (subs := default empty_count_total (d_subscriptions patterns)).
  set (spikes := default empty_spikes (d_impulse_spikes patterns)).
  match goal with
  | |- ∃ c rest, _ ∧ first_char <$> ([?a] ++ ?l) = _ ∧ _ =>
      assert (∃ c, c ∈ ["S"; "I"; "Y"]%char ∧ first_char a = Some c) as (c & Hc & Ha);
      [|exists c, (first_char <$> l); split; [done|]; split;
        [by rewrite fmap_app; simpl; rewrite Ha|]]
  end.
  - destruct (decide (default 0 (sd_savings_rate stats) < 1 # 10)%Q);
      [|destruct (decide (default 0 (sd_savings_rate stats) < 1 # 4)%Q)];
      eexists; (split; [|reflexivity]); set_solver.
  - clear c Hc Ha. rewrite !fmap_app.
    change (Some <$> ["O"; "P"; "D"; "C"]%char)
      with ([Some "O"%char] ++ [Some "P"%char] ++ [Some "D"%char] ++ [Some "C"%char]).
    repeat apply sublist_app.
    + destruct (decide _); [|apply sublist_nil_l]. simpl. apply sublist_skip, sublist_nil_l.
    + destruct (default [] (d_days spikes)); [apply sublist_nil_l|].
      destruct (decide _); [|apply sublist_nil_l]. simpl. apply sublist_skip, sublist_nil_l.
    + destruct (decide _); [|apply sublist_nil_l]. simpl. apply sublist_skip, sublist_nil_l.
    + destruct categories as [|top_cat ?]; [apply sublist_nil_l|].
      destruct (truthy _); [|apply sublist_nil_l]. simpl. apply sublist_skip, sublist_nil_l.
Qed.

Lemma initials_NoDup (c : ascii) :
  c ∈ ["S"; "I"; "Y"]%char →
  NoDup (Some c :: (Some <$> ["O"; "P"; "D"; "C"; "B"]%char)).
Proof.
  intros Hc.
  assert (c = "S" ∨ c = "I" ∨ c = "Y")%char as Hcases by set_solver.
  destruct Hcases as [-> | [-> | ->]];
    by apply (bool_decide_unpack _); vm_compute.
Qed.

(** X3: the recommender returns exactly the actions of its rules, followed
    by the review action when the rules gave fewer than three; removing
    duplicates and keeping five never drops anything.  So the list has
    between two and five actions, all different, and holds the review action
    exactly when fewer than three rules fired. *)
Theorem actions_are_rules_then_filler (stats : StatsDict)
    (categories : list CategoryEntry) (patterns : PatternsDict) :
  let rules := rule_actions stats categories patterns in
  let actions := recommend_actions_for_next_month stats categories patterns in
  actions = (if bool_decide (length rules < 3)%nat
             then rules ++ [filler_action] else rules)
  ∧ (1 ≤ length rules ≤ 5)%nat
  ∧ (2 ≤ length actions ≤ 5)%nat
  ∧ (filler_action ∈ actions ↔ (length rules < 3)%nat).
Proof.
  intros rules actions.
  destruct (rule_actions_initials stats categories patterns)
    as (c & rest & Hc & Hrules & Hrest).
  fold rules in Hrules.
  unfold actions, recommend_actions_for_next_month. fold rules.
  clear actions. clearbody rules.
  pose proof (initials_NoDup c Hc) as Hnd.
  assert (first_char <$> (rules ++ [filler_action])
          `sublist_of` Some c :: (Some <$> ["O"; "P"; "D"; "C"; "B"]%char)) as Hsub.
  { rewrite fmap_app, Hrules.
    change (Some c :: (Some <$> ["O"; "P"; "D"; "C"; "B"]%char))
      with ((Some c :: (Some <$> ["O"; "P"; "D"; "C"]%char)) ++ [Some "B"%char]).
    apply sublist_app; [by apply sublist_skip|done]. }
  assert (NoDup (rules ++ [filler_action])) as Hall.
  { apply (NoDup_fmap_1 first_char). by apply (sublist_NoDup _ _ Hnd). }
  assert (length rules = S (length rest)) as Hlen.
  { by rewrite <- (length_fmap first_char rules), Hrules. }
  assert (length rest ≤ 4)%nat as Hle by apply (sublist_length _ _ Hrest).
  assert (filler_action ∉ rules) as Hfresh.
  { apply NoDup_app in Hall as (_ & Hdisj & _). intros Hin.
    apply (Hdisj _ Hin). set_solver. }
  assert (NoDup rules) as Hr by (by apply NoDup_app in Hall as (? & _)).
  destruct (bool_decide (length rules < 3)%nat) eqn:Hshort.
  - apply bool_decide_eq_true in Hshort.
    rewrite dedupe_NoDup by (done || set_solver).
    rewrite take_ge by (rewrite length_app; simpl; lia).
    rewrite length_app. simpl.
    split; [done|]. split; [lia|]. split; [lia|]. split; [done|]. set_solver.
  - apply bool_decide_eq_false in Hshort.
    rewrite dedupe_NoDup by (done || set_solver).
    rewrite take_ge by lia.
    split; [done|]. split; [lia|]. split; [lia|]. split; [done|lia].
Qed.

(** ** Resolving categories twice *)

Lemma first_keyword_in_table (table : list (string * string)) (text cat : string) :
  first_keyword table text = Some cat → cat ∈ table.*2.
Proof.
  induction table as [|[kw c] table IH]; simpl; [done|].
  destruct (py_in kw text); [intros [= ->]; by left|].
  intros H. right. by apply IH.
Qed.

Lemma table_categories_not_blank :
  Forall (λ c, strip c ≠ "") table_categories.
Proof. by apply (bool_decide_unpack _); vm_compute. Qed.

Lemma table_categories_all :
  Forall (λ c, c ∈ table_categories) KEYWORD_CATEGORY_MAP.*2.
Proof. by apply (bool_decide_unpack _); vm_compute. Qed.

Lemma guess_category_not_blank (d : string) (s a : option string) (cat : string) :
  guess_category d s a = Some cat → cat ∈ table_categories ∧ strip cat ≠ "".
Proof.
  intros Hg. apply first_keyword_in_table in Hg.
  pose proof table_categories_all as Hall. rewrite Forall_forall in Hall.
  pose proof table_categories_not_blank as Hnb. rewrite Forall_forall in Hnb.
  split; [by apply Hall|]. by apply Hnb, Hall.
Qed.

Lemma categorise_row_columns (df df' : DataFrame) (r : Row) (c : option string) :
  columns df' = columns df →
  guess_category (row_description df' (with_category r c))
    (row_source df' (with_category r c)) (row_account_name df' (with_category r c))
  = guess_category (row_description df r) (row_source df r) (row_account_name df r).
Proof.
  intros Hcols. unfold row_description, row_source, row_account_name, has_col.
  by rewrite Hcols.
Qed.

Lemma fill_categories_idempotent (df : DataFrame) :
  fill_categories (fill_categories df) = fill_categories df.
Proof.
  unfold fill_categories at 1 3. simpl. f_equal.
  rewrite <- list_fmap_compose. apply list_fmap_ext. intros _ r _. simpl.
  destruct (mask_missing r) eqn:Hmask; [|by rewrite Hmask].
  destruct (guess_category (row_description df r) (row_source df r)
              (row_account_name df r)) as [cat|] eqn:Hguess.
  - assert (_categorise_row df r = Some cat) as -> by (unfold _categorise_row; by rewrite Hguess).
    apply guess_category_not_blank in Hguess as [_ Hnb].
    unfold mask_missing at 1. simpl. by rewrite bool_decide_eq_false_2.
  - assert (_categorise_row df r = category r) as -> by (unfold _categorise_row; by rewrite Hguess).
    rewrite with_category_same, Hmask. unfold _categorise_row.
    pose proof (categorise_row_columns df (fill_categories df) r (category r) eq_refl)
      as Hsame.
    rewrite with_category_same in Hsame. rewrite Hsame, Hguess.
    apply with_category_same.
Qed.

(** X4: resolving categories twice is the same as resolving them once: the
    second call returns a new frame equal to the one it was given, and leaves
    every existing object, its argument included, as it was. *)
Theorem category_resolver_idempotent (σ : store) (df : nat) :
  ∃ σ1 out1 σ2 out2,
    apply_auto_categories_to_df σ df = (σ1, out1)
    ∧ apply_auto_categories_to_df σ1 out1 = (σ2, out2)
    ∧ out2 ≠ out1
    ∧ σ2 !!! out2 = σ1 !!! out1
    ∧ σ2 !! out1 = σ1 !! out1
    ∧ Forall (λ r, blank (category r) →
                   ∀ kw cat, (kw, cat) ∈ KEYWORD_CATEGORY_MAP →
                             ¬ occurs kw (row_text (σ1 !!! out1) r))
             (rows (σ1 !!! out1)).
Proof.
  destruct (apply_auto_categories_result σ df)
    as (σ1 & out1 & Hcall1 & _ & _ & Hout1 & _ & _).
  destruct (apply_auto_categories_result σ1 out1)
    as (σ2 & out2 & Hcall2 & Hfresh & Hne & Hout2 & Hdf & _).
  set (work := if has_col (σ !!! df) "category" then σ !!! df
               else add_category_column (σ !!! df)) in *.
  assert (has_col work "category" = true) as Hwork.
  { unfold work. destruct (has_col (σ !!! df) "category") eqn:Hc; [done|].
    unfold has_col. simpl. apply bool_decide_eq_true. set_solver. }
  assert (has_col (σ1 !!! out1) "category" = true) as Hcol by by rewrite Hout1.
  rewrite Hcol in Hout2, Hdf.
  assert (out1 ∈ dom σ1) as Hin.
  { destruct (decide (out1 ∈ dom σ1)) as [|Hnin]; [done|].
    rewrite lookup_total_alt, (not_elem_of_dom_1 _ _ Hnin) in Hcol. done. }
  exists σ1, out1, σ2, out2. split; [done|]. split; [done|].
  split; [done|]. split.
  { rewrite Hout2, Hout1. apply fill_categories_idempotent. }
  split.
  { rewrite (Hdf Hin). symmetry. by apply lookup_lookup_total_dom. }
  rewrite Hout1. simpl. apply Forall_fmap, Forall_forall. intros r _. simpl.
  intros Hblank kw cat Hkw.
  assert (row_text (fill_categories work)
            (if mask_missing r then with_category r (_categorise_row work r) else r)
          = row_text work r) as ->.
  { unfold row_text, row_description, row_source, row_account_name, has_col.
    simpl. by destruct (mask_missing r). }
  destruct (mask_missing r) eqn:Hmask.
  - unfold _categorise_row in Hblank. fold (row_text work r) in *.
    destruct (guess_category _ _ _) as [c|] eqn:Hguess.
    + apply guess_category_not_blank in Hguess as [_ Hnb]. by simpl in Hblank.
    + by apply (first_keyword_None _ _ Hguess kw cat).
  - apply mask_missing_blank in Hblank. congruence.
Qed.
